(** * llm_probe: a shallow embedding of [src/utils/llm_probe.py]

    The probe is a linear command-line program: it loads a dotenv file into
    the process environment, parses a header specification in three tolerant
    formats, issues two HTTP requests and prints what came back.

    Python strings are sequences of Unicode code points and are modelled as
    [list N].  Dictionaries of type [Dict[str, str]] are finite maps
    [gmap (list N) (list N)]; dynamically typed values (the results of
    [json.loads] and [ast.literal_eval]) are the inductive type [pyvalue].
    Exceptions are explicit: a function that can raise returns a [result]. *)

From Stdlib Require Import ZArith NArith Ascii String.
From stdpp Require Import gmap list fin_maps pretty.

Local Open Scope N_scope.
#[local] Set Warnings "-register-all".

(** ** Python strings *)

Abbreviation pystr := (list N).

(** Source text of this file is UTF-8; [py] decodes a literal into the code
    points of the Python string it denotes. *)
Fixpoint utf8_decode (bs : list N) : pystr :=
  match bs with
  | [] => []
  | b0 :: r0 =>
    if b0 <? 128 then b0 :: utf8_decode r0
    else if b0 <? 224 then
      match r0 with
      | b1 :: r1 => ((b0 - 192) * 64 + (b1 - 128)) :: utf8_decode r1
      | _ => []
      end
    else if b0 <? 240 then
      match r0 with
      | b1 :: b2 :: r2 =>
        ((b0 - 224) * 4096 + (b1 - 128) * 64 + (b2 - 128)) :: utf8_decode r2
      | _ => []
      end
    else
      match r0 with
      | b1 :: b2 :: b3 :: r3 =>
        ((b0 - 240) * 262144 + (b1 - 128) * 4096 + (b2 - 128) * 64 + (b3 - 128))
          :: utf8_decode r3
      | _ => []
      end
  end.

Definition py (s : string) : pystr :=
  utf8_decode (map N_of_ascii (list_ascii_of_string s)).

(** Characters the program names. *)
Definition LF : N := 10.
Definition SPACE : N := 32.
Definition DQUOTE : N := 34.
Definition HASH : N := 35.
Definition SQUOTE : N := 39.
Definition COMMA : N := 44.
Definition SLASH : N := 47.
Definition COLON : N := 58.
Definition EQUALS : N := 61.
Definition LBRACE : N := 123.
Definition RBRACE : N := 125.

(** [str.isspace] on one code point: the characters [str.strip()] removes. *)
Definition isspace (c : N) : bool :=
  ((9 <=? c) && (c <=? 13)) || ((28 <=? c) && (c <=? 32))
  || (c =? 133) || (c =? 160) || (c =? 5760)
  || ((8192 <=? c) && (c <=? 8202))
  || (c =? 8232) || (c =? 8233) || (c =? 8239) || (c =? 8287) || (c =? 12288).

(** [not s] for a string. *)
Definition is_empty (s : pystr) : bool :=
  match s with [] => true | _ => false end.

Fixpoint drop_while (p : N → bool) (s : pystr) : pystr :=
  match s with
  | [] => []
  | c :: s' => if p c then drop_while p s' else s
  end.

Definition lstrip_with (p : N → bool) (s : pystr) : pystr := drop_while p s.
Definition rstrip_with (p : N → bool) (s : pystr) : pystr :=
  rev (drop_while p (rev s)).
Definition strip_with (p : N → bool) (s : pystr) : pystr :=
  rstrip_with p (lstrip_with p s).

(** [s.strip()], [s.strip(chars)] and [s.rstrip(chars)]. *)
Definition strip (s : pystr) : pystr := strip_with isspace s.
Definition in_chars (chars : pystr) (c : N) : bool := existsb (N.eqb c) chars.
Definition strip_chars (chars s : pystr) : pystr := strip_with (in_chars chars) s.
Definition rstrip_chars (chars s : pystr) : pystr := rstrip_with (in_chars chars) s.

(** [s.startswith(p)], [s.endswith(p)] and [sub in s]. *)
Fixpoint startswith (p s : pystr) : bool :=
  match p, s with
  | [], _ => true
  | _ :: _, [] => false
  | a :: p', b :: s' => (a =? b) && startswith p' s'
  end.

Definition endswith (p s : pystr) : bool := startswith (rev p) (rev s).

Fixpoint contains (sub s : pystr) : bool :=
  startswith sub s
  || match s with
     | [] => false
     | _ :: s' => contains sub s'
     end.

(** [c in s] for a one-character needle. *)
Definition has_char (c : N) (s : pystr) : bool := existsb (N.eqb c) s.

(** [s.split(c, 1)] for a one-character separator that occurs in [s]: the
    text before the first occurrence and the text after it.  The program
    only unpacks the result as a pair under the guard [c in s]. *)
Fixpoint split1 (c : N) (s : pystr) : pystr * pystr :=
  match s with
  | [] => ([], [])
  | x :: s' =>
    if x =? c then ([], s')
    else let '(k, v) := split1 c s' in (x :: k, v)
  end.

(** [s.split(c)] for a one-character separator. *)
Fixpoint split_char (c : N) (s : pystr) : list pystr :=
  match s with
  | [] => [[]]
  | x :: s' =>
    if x =? c then [] :: split_char c s'
    else match split_char c s' with
         | h :: t => (x :: h) :: t
         | [] => [[x]]
         end
  end.

(** [s.replace(a, b)] for one-character [a] and [b]. *)
Definition replace_char (a b : N) (s : pystr) : pystr :=
  map (λ x, if x =? a then b else x) s.

(** [sep.join(parts)]. *)
Fixpoint join (sep : pystr) (parts : list pystr) : pystr :=
  match parts with
  | [] => []
  | [p] => p
  | p :: ps => p ++ sep ++ join sep ps
  end.

(** [s[1:-1]] and [s[:n]]. *)
Definition slice_1_m1 (s : pystr) : pystr := drop 1 (take (length s - 1) s).
Definition slice_to (n : nat) (s : pystr) : pystr := take n s.

(** [str.splitlines()]: the line boundaries of Python text, with CR LF
    counted once, and no empty last line after a final boundary. *)
Definition is_linebreak (c : N) : bool :=
  ((10 <=? c) && (c <=? 13)) || ((28 <=? c) && (c <=? 30))
  || (c =? 133) || (c =? 8232) || (c =? 8233).

Fixpoint splitlines (s : pystr) : list pystr :=
  match s with
  | [] => []
  | x :: s' =>
    if is_linebreak x then
      [] :: match s' with
            | y :: s'' => if (x =? 13) && (y =? 10) then splitlines s''
                          else splitlines s'
            | [] => []
            end
    else match splitlines s' with
         | l :: ls => (x :: l) :: ls
         | [] => [[x]]
         end
  end.

(** ** Dynamically typed values and exceptions *)

(** The values [json.loads] and [ast.literal_eval] can return.  A float
    keeps the text of its literal; a dict keeps its items in insertion
    order, with pairwise distinct keys. *)
Inductive pyvalue : Type :=
| PyNone
| PyBool (b : bool)
| PyInt (n : Z)
| PyFloat (lit : pystr)
| PyStr (s : pystr)
| PyBytes (bs : list N)
| PyList (xs : list pyvalue)
| PyTuple (xs : list pyvalue)
| PySet (xs : list pyvalue)
| PyDict (items : list (pyvalue * pyvalue)).

(** Exceptions.  Every exception the program raises itself is a
    [ValueError] with the message the source gives.  The others come from
    the libraries it calls: [ValueError] again, [OSError] with its error
    number and text, [RecursionError], and [UnicodeEncodeError], of which
    only the class is kept; [LibraryError] stands for any other exception,
    by its [repr]. *)
Inductive exn : Type :=
| ValueError (msg : pystr)
| OSError (errno : Z) (strerror : pystr)
| RecursionError (msg : pystr)
| UnicodeEncodeError
| LibraryError (repr : pystr).

Inductive result (A : Type) : Type :=
| Ok (a : A)
| Raise (e : exn).
Arguments Ok {A} a.
Arguments Raise {A} e.

(** [d[k] = v] on the item list of a dict, for a string key: an existing key
    keeps its place, a new key goes last. *)
Fixpoint dict_set (k : pystr) (v : pyvalue) (d : list (pyvalue * pyvalue))
  : list (pyvalue * pyvalue) :=
  match d with
  | [] => [(PyStr k, v)]
  | (PyStr k', v') :: d' =>
    if decide (k = k') then (PyStr k', v) :: d'
    else (PyStr k', v') :: dict_set k v d'
  | kv :: d' => kv :: dict_set k v d'
  end.

(** ** The JSON decoder

    [json.loads] is library code; this is its grammar as CPython's decoder
    implements it (strict mode: no raw control character inside a string),
    followed by its encoder for mappings of strings to strings.  The decoder
    is that of CPython 3.11 with the interpreter's default limits: an
    integer literal of more than 4300 digits raises a [ValueError], and a
    container nested deeper than the interpreter has room for raises a
    [RecursionError]; neither is a [JSONDecodeError]. *)
Module Json.

(** What [json.loads] does: it returns a value, raises [JSONDecodeError], or
    raises another exception. *)
Inductive loads_result : Type :=
| Value (v : pyvalue)
| JSONDecodeError
| Raises (e : exn).

(** What a scanner does on a text: it reads a value and leaves the rest,
    finds no value there, or raises. *)
Inductive scan (A : Type) : Type :=
| Scanned (a : A) (rest : pystr)
| Rejected
| Failed (e : exn).
Arguments Scanned {A} a rest.
Arguments Rejected {A}.
Arguments Failed {A} e.

Definition of_option {A : Type} (o : option (A * pystr)) : scan A :=
  match o with
  | Some (a, rest) => Scanned a rest
  | None => Rejected
  end.

(** [sys.int_info.default_max_str_digits], and the message of the error. *)
Definition MAX_STR_DIGITS : nat := 4300.

Definition int_limit_msg (digits : nat) : pystr :=
  py "Exceeds the limit (4300 digits) for integer string conversion: "
  ++ py "value has " ++ py (pretty digits)
  ++ py " digits; use sys.set_int_max_str_digits() to increase the limit".

Definition MSG_DEEP_OBJECT : pystr :=
  py "maximum recursion depth exceeded while decoding a JSON object "
  ++ py "from a unicode string".
Definition MSG_DEEP_ARRAY : pystr :=
  py "maximum recursion depth exceeded while decoding a JSON array "
  ++ py "from a unicode string".
Definition MSG_DEEP_CALL : pystr :=
  py "maximum recursion depth exceeded while calling a Python object".
Definition MSG_DEEP : pystr := py "maximum recursion depth exceeded".

(** Where the decoder finds an error in the text it builds the
    [JSONDecodeError] on the spot, inside the containers it has entered,
    which takes three of the frames there is room for; with fewer left,
    what is raised is a [RecursionError], whose message depends on the call
    that no longer fits.  (Where the decoder merely finds no value, the
    error is built by its caller, outside any container.) *)
Definition errmsg {A : Type} (room : nat) : scan A :=
  match room with
  | 0 => Failed (RecursionError MSG_DEEP_CALL)
  | 1 => Failed (RecursionError MSG_DEEP)
  | 2 => Failed (RecursionError MSG_DEEP_CALL)
  | _ => Rejected
  end%nat.

Definition BACKSLASH : N := 92.

Definition is_ws (c : N) : bool :=
  (c =? 32) || (c =? 9) || (c =? 10) || (c =? 13).
Definition skip_ws (s : pystr) : pystr := drop_while is_ws s.

Definition is_digit (c : N) : bool := (48 <=? c) && (c <=? 57).

Definition hexval (c : N) : option N :=
  if is_digit c then Some (c - 48)
  else if (97 <=? c) && (c <=? 102) then Some (c - 87)
  else if (65 <=? c) && (c <=? 70) then Some (c - 55)
  else None.

Definition hex4 (a b c d : N) : option N :=
  match hexval a, hexval b, hexval c, hexval d with
  | Some x, Some y, Some z, Some w => Some (((x * 16 + y) * 16 + z) * 16 + w)
  | _, _, _, _ => None
  end.

Definition is_high_surrogate (u : N) : bool := (55296 <=? u) && (u <=? 56319).
Definition is_low_surrogate (u : N) : bool := (56320 <=? u) && (u <=? 57343).
Definition join_surrogates (hi lo : N) : N :=
  65536 + (hi - 55296) * 1024 + (lo - 56320).

(** The one-character escapes: quote, backslash, slash, b, f, n, r, t. *)
Definition unescape (e : N) : option N :=
  if e =? 34 then Some 34 else if e =? 92 then Some 92
  else if e =? 47 then Some 47 else if e =? 98 then Some 8
  else if e =? 102 then Some 12 else if e =? 110 then Some 10
  else if e =? 114 then Some 13 else if e =? 116 then Some 9
  else None.

Definition emit (c : N) (r : option (pystr * pystr)) : option (pystr * pystr) :=
  match r with
  | Some (s, rest) => Some (c :: s, rest)
  | None => None
  end.

(** [scanstring]: the text after an opening quote, up to the closing one;
    returns the decoded string and what follows the closing quote. *)
Fixpoint scanstring (s : pystr) : option (pystr * pystr) :=
  match s with
  | [] => None
  | c :: r0 =>
    if c =? DQUOTE then Some ([], r0)
    else if c =? BACKSLASH then
      match r0 with
      | [] => None
      | e :: r1 =>
        if e =? 117 then
          match r1 with
          | h1 :: h2 :: h3 :: h4 :: r2 =>
            match hex4 h1 h2 h3 h4 with
            | None => None
            | Some uni =>
              if is_high_surrogate uni then
                match r2 with
                | b :: u :: g1 :: g2 :: g3 :: g4 :: r3 =>
                  if (b =? BACKSLASH) && (u =? 117) then
                    match hex4 g1 g2 g3 g4 with
                    | None => None
                    | Some uni2 =>
                      if is_low_surrogate uni2
                      then emit (join_surrogates uni uni2) (scanstring r3)
                      else emit uni (scanstring r2)
                    end
                  else emit uni (scanstring r2)
                | _ => emit uni (scanstring r2)
                end
              else emit uni (scanstring r2)
            end
          | _ => None
          end
        else match unescape e with
             | Some c' => emit c' (scanstring r1)
             | None => None
             end
      end
    else if c <? 32 then None
    else emit c (scanstring r0)
  end.

Fixpoint span_digits (s : pystr) : pystr * pystr :=
  match s with
  | c :: s' =>
    if is_digit c then let '(ds, r) := span_digits s' in (c :: ds, r)
    else ([], s)
  | [] => ([], [])
  end.

Definition digits_value (ds : pystr) : Z :=
  foldl (λ acc d, (acc * 10 + Z.of_N (d - 48))%Z) 0%Z ds.

(** A number: an optional minus, an integer part without leading zero, an
    optional fraction, an optional exponent.  It is an [int] when it has
    neither fraction nor exponent; the conversion of its digits then raises
    when there are more than [MAX_STR_DIGITS] of them. *)
Definition match_number (s : pystr) : scan pyvalue :=
  let '(neg, r0) :=
    match s with
    | c :: r => if c =? 45 then (true, r) else (false, s)
    | [] => (false, s)
    end in
  match r0 with
  | d :: r1 =>
    if is_digit d then
      let '(ipart, r2) := if d =? 48 then ([d], r1) else span_digits r0 in
      let '(frac, r3) :=
        match r2 with
        | dot :: f :: r' =>
          if (dot =? 46) && is_digit f
          then let '(fd, r'') := span_digits (f :: r') in (dot :: fd, r'')
          else ([], r2)
        | _ => ([], r2)
        end in
      let '(exp, r4) :=
        match r3 with
        | e :: r' =>
          if (e =? 101) || (e =? 69) then
            let '(sg, r'') :=
              match r' with
              | c :: t => if (c =? 43) || (c =? 45) then ([c], t) else ([], r')
              | [] => ([], r')
              end in
            let '(ed, r''') := span_digits r'' in
            if is_empty ed then ([], r3) else (e :: sg ++ ed, r''')
          else ([], r3)
        | [] => ([], r3)
        end in
      if is_empty frac && is_empty exp then
        if (MAX_STR_DIGITS <? length ipart)%nat
        then Failed (ValueError (int_limit_msg (length ipart)))
        else
          let n := digits_value ipart in
          Scanned (PyInt (if neg then - n else n)%Z) r4
      else
        Scanned (PyFloat ((if neg then [45] else []) ++ ipart ++ frac ++ exp))
          r4
    else Rejected
  | [] => Rejected
  end.

(** A keyword [kw] at the head of [s] yields [v]. *)
Definition keyword (kw : string) (v : pyvalue) (s : pystr)
  : option (pyvalue * pystr) :=
  if startswith (py kw) s then Some (v, drop (length (py kw)) s) else None.

(** A value that is not a container: a string, a keyword or a number. *)
Definition scan_atom (room : nat) (s : pystr) : scan pyvalue :=
  match s with
  | [] => Rejected
  | c :: r =>
    if c =? DQUOTE then
      match scanstring r with
      | Some (str, r') => Scanned (PyStr str) r'
      | None => errmsg room
      end
    else if c =? 110 then of_option (keyword "null" PyNone s)
    else if c =? 116 then of_option (keyword "true" (PyBool true) s)
    else if c =? 102 then of_option (keyword "false" (PyBool false) s)
    else if c =? 78 then of_option (keyword "NaN" (PyFloat (py "NaN")) s)
    else if c =? 73
    then of_option (keyword "Infinity" (PyFloat (py "Infinity")) s)
    else if startswith (py "-Infinity") s
    then of_option (keyword "-Infinity" (PyFloat (py "-Infinity")) s)
    else match_number s
  end.

(** [scan_once] reads one value; [members] reads the members of an object
    from the opening quote of a key on, [elements] the elements of an array.
    [room] is the number of containers, one inside the other, that the
    interpreter still has room for: entering an object or an array takes
    one, and with none left the decoder raises [RecursionError].  The fuel
    only makes the recursion structural; [loads_within] supplies as much as
    any text needs (see [JsonFuel.loads_enough_fuel]). *)
Fixpoint scan_once (fuel room : nat) (s : pystr) {struct fuel}
  : scan pyvalue :=
  match fuel with
  | O => Rejected
  | S fuel' =>
    match s with
    | [] => Rejected
    | c :: r =>
      if c =? LBRACE then
        match room with
        | O => Failed (RecursionError MSG_DEEP_OBJECT)
        | S room' =>
          match skip_ws r with
          | c' :: r' =>
            if c' =? RBRACE then Scanned (PyDict []) r'
            else members fuel' room' [] (c' :: r')
          | [] => errmsg room'
          end
        end
      else if c =? 91 then
        match room with
        | O => Failed (RecursionError MSG_DEEP_ARRAY)
        | S room' =>
          match skip_ws r with
          | c' :: r' =>
            if c' =? 93 then Scanned (PyList []) r'
            else elements fuel' room' [] (c' :: r')
          | [] => Rejected
          end
        end
      else scan_atom room s
    end
  end
with members (fuel room : nat) (acc : list (pyvalue * pyvalue)) (s : pystr)
  {struct fuel} : scan pyvalue :=
  match fuel with
  | O => Rejected
  | S fuel' =>
    match s with
    | q :: r =>
      if q =? DQUOTE then
        match scanstring r with
        | Some (key, r1) =>
          match skip_ws r1 with
          | c1 :: r2 =>
            if c1 =? COLON then
              match scan_once fuel' room (skip_ws r2) with
              | Scanned v r3 =>
                let acc' := dict_set key v acc in
                match skip_ws r3 with
                | c2 :: r4 =>
                  if c2 =? RBRACE then Scanned (PyDict acc') r4
                  else if c2 =? COMMA
                  then members fuel' room acc' (skip_ws r4)
                  else errmsg room
                | [] => errmsg room
                end
              | Rejected => Rejected
              | Failed e => Failed e
              end
            else errmsg room
          | [] => errmsg room
          end
        | None => errmsg room
        end
      else errmsg room
    | [] => errmsg room
    end
  end
with elements (fuel room : nat) (acc : list pyvalue) (s : pystr)
  {struct fuel} : scan pyvalue :=
  match fuel with
  | O => Rejected
  | S fuel' =>
    match scan_once fuel' room s with
    | Scanned v r1 =>
      match skip_ws r1 with
      | c :: r2 =>
        if c =? 93 then Scanned (PyList (acc ++ [v])) r2
        else if c =? COMMA then elements fuel' room (acc ++ [v]) (skip_ws r2)
        else errmsg room
      | [] => errmsg room
      end
    | Rejected => Rejected
    | Failed e => Failed e
    end
  end.

(** [json.loads(s)] for a [str], with room for [room] nested containers:
    one value, surrounded by optional whitespace, and nothing else. *)
Definition loads_within (room : nat) (s : pystr) : loads_result :=
  match scan_once (S (2 * length s)) room (skip_ws s) with
  | Scanned v rest =>
    if is_empty (skip_ws rest) then Value v else JSONDecodeError
  | Rejected => JSONDecodeError
  | Failed e => Raises e
  end.

(** The room the decoder has when line 30 calls it: CPython 3.11 stops at
    1000 frames, and [main], called from the module, has used seven of them
    by then.  (The number depends on the interpreter; what is proved of
    [parse_headers] is proved for every decoder, and of this one for every
    room that the text needs.) *)
Definition ROOM : nat := 993.

Definition loads (s : pystr) : loads_result := loads_within ROOM s.

(** The writer, [json.dumps], for a mapping of strings to strings: items are
    separated by a comma and a space, key and value by a colon and a space.
    [esc] is how one character of a string is written. *)
Definition encode_string (esc : N → pystr) (s : pystr) : pystr :=
  DQUOTE :: flat_map esc s ++ [DQUOTE].

Definition encode_item (esc : N → pystr) (kv : pystr * pystr) : pystr :=
  encode_string esc kv.1 ++ [COLON; SPACE] ++ encode_string esc kv.2.

Definition dumps_with (esc : N → pystr) (m : gmap pystr pystr) : pystr :=
  LBRACE :: join [COMMA; SPACE] (encode_item esc <$> map_to_list m)
  ++ [RBRACE].

Definition hexdigit (n : N) : N := if n <? 10 then 48 + n else 87 + n.

(** The four lower-case hexadecimal digits of a 16-bit number. *)
Definition hex_digits4 (u : N) : pystr :=
  [ hexdigit (u / 4096); hexdigit (u / 256 mod 16);
    hexdigit (u / 16 mod 16); hexdigit (u mod 16) ].

(** The escapes both modes share: quote, backslash, and the control
    characters (five of them have a short form). *)
Definition escape_common (c : N) : option pystr :=
  if c =? 34 then Some [92; 34] else if c =? 92 then Some [92; 92]
  else if c =? 10 then Some [92; 110] else if c =? 13 then Some [92; 114]
  else if c =? 9 then Some [92; 116] else if c =? 8 then Some [92; 98]
  else if c =? 12 then Some [92; 102]
  else if c <? 32 then Some (92 :: 117 :: hex_digits4 c)
  else None.

(** [ensure_ascii=False]: every other character is written as it is. *)
Definition escape_char (c : N) : pystr :=
  match escape_common c with
  | Some e => e
  | None => [c]
  end.

(** [ensure_ascii=True], the default: what is not printable ASCII is written
    as [\uXXXX], a character beyond the basic plane as a surrogate pair. *)
Definition escape_char_ascii (c : N) : pystr :=
  match escape_common c with
  | Some e => e
  | None =>
    if c <=? 126 then [c]
    else if c <? 65536 then 92 :: 117 :: hex_digits4 c
    else
      let n := c - 65536 in
      92 :: 117 :: hex_digits4 (55296 + n / 1024)
      ++ 92 :: 117 :: hex_digits4 (56320 + n mod 1024)
  end.

(** [json.dumps(m)] and [json.dumps(m, ensure_ascii=False)]. *)
Definition dumps (m : gmap pystr pystr) : pystr :=
  dumps_with escape_char_ascii m.
Definition dumps_raw (m : gmap pystr pystr) : pystr :=
  dumps_with escape_char m.

(** A Unicode scalar value: a code point that is not a surrogate. *)
Definition is_scalar (c : N) : bool :=
  (c <? 55296) || ((57344 <=? c) && (c <? 1114112)).
Definition scalar_text (s : pystr) : bool := forallb is_scalar s.

End Json.

(** ** The program *)

Definition quoted (s : string) : pystr := DQUOTE :: py s ++ [DQUOTE].

(** [d.setdefault(k, v)] on a [Dict[str, str]]. *)
Definition setdefault (k v : pystr) (d : gmap pystr pystr) : gmap pystr pystr :=
  match d !! k with
  | Some _ => d
  | None => <[k := v]> d
  end.

(** [os.getenv(k, default)] and [os.getenv(k)]. *)
Definition getenv (env : gmap pystr pystr) (k : string) (dflt : pystr) : pystr :=
  default dflt (env !! py k).
Definition getenv_opt (env : gmap pystr pystr) (k : string) : option pystr :=
  env !! py k.

(** [x or y] where [x] is an optional string: [None] and the empty string
    are falsy. *)
Definition or_else {A : Type} (x : option pystr) (inj : pystr → A) (y : A) : A :=
  match x with
  | Some (c :: s) => inj (c :: s)
  | _ => y
  end.

(** *** [load_env_file] (lines 12-23)

    The file system is the argument [file]: [None] when the path does not
    exist, otherwise the text [read_text] returns (the file is taken to be
    readable UTF-8 text).  The environment [os.environ] is a finite map,
    passed in and returned. *)

(** The code points the file system encoding (UTF-8 with the
    [surrogateescape] handler) can encode: all but the surrogates outside
    U+DC80..U+DCFF. *)
Definition fs_encodable (c : N) : bool :=
  negb ((55296 <=? c) && (c <=? 57343)) || ((56448 <=? c) && (c <=? 56575)).

Definition NUL : N := 0.
Definition MSG_NUL : pystr := py "embedded null byte".
Definition MSG_NAME : pystr := py "illegal environment variable name".
Definition EINVAL : exn := OSError 22 (py "Invalid argument").

(** [os.environ.setdefault(k, v)] on Linux.  The name is encoded and looked
    up; when it is not set, the value is encoded and both are handed to
    [putenv], which refuses a NUL character in either, an equals sign in the
    name, and the empty name. *)
Definition environ_setdefault (k v : pystr) (env : gmap pystr pystr)
  : result (gmap pystr pystr) :=
  if negb (forallb fs_encodable k) then Raise UnicodeEncodeError
  else
    match env !! k with
    | Some _ => Ok env
    | None =>
      if negb (forallb fs_encodable v) then Raise UnicodeEncodeError
      else if has_char NUL k || has_char NUL v then Raise (ValueError MSG_NUL)
      else if has_char EQUALS k then Raise (ValueError MSG_NAME)
      else if is_empty k then Raise EINVAL
      else Ok (<[k := v]> env)
    end.

(** The body of the loop, lines 17-23. *)
Definition load_env_line (env : gmap pystr pystr) (line : pystr)
  : result (gmap pystr pystr) :=
  let line := strip line in
  if is_empty line || startswith [HASH] line || negb (has_char EQUALS line)
  then Ok env
  else
    let '(key, value) := split1 EQUALS line in
    let key := strip key in
    let value := strip_chars [DQUOTE] (strip value) in
    environ_setdefault key value env.

(** The loop of line 16: it ends with the last line, or at the first line
    that raises, with the environment as the lines before have left it. *)
Fixpoint load_env_lines (lines : list pystr) (env : gmap pystr pystr)
  : gmap pystr pystr * option exn :=
  match lines with
  | [] => (env, None)
  | line :: lines' =>
    match load_env_line env line with
    | Ok env' => load_env_lines lines' env'
    | Raise e => (env, Some e)
    end
  end.

(** The environment [load_env_file] leaves, and the exception it ends with,
    if any. *)
Definition load_env_file (file : option pystr) (env : gmap pystr pystr)
  : gmap pystr pystr * option exn :=
  match file with
  | None => (env, None)
  | Some text => load_env_lines (splitlines text) env
  end.

(** *** [summarize_body] (lines 66-70) *)
Definition summarize_body_limit (text : pystr) (limit : nat) : pystr :=
  let text := strip (replace_char LF SPACE text) in
  if (limit <? length text)%nat then slice_to limit text ++ py "..."
  else text.

Definition summarize_body (text : pystr) : pystr :=
  summarize_body_limit text 400.

(** *** [parse_headers] (lines 26-63) *)

Definition MSG_ITEM : pystr := py "无法解析 header 项: ".

Definition MSG_MAPPING : pystr :=
  py "headers 必须是 JSON 对象，且键/值都为字符串，例如：{"
  ++ quoted "User-Agent" ++ py ":" ++ quoted "Mozilla/5.0" ++ py "}".

Definition JSON_EXAMPLE : pystr :=
  py "{" ++ quoted "User-Agent" ++ py ":" ++ quoted "Mozilla/5.0" ++ py ","
  ++ quoted "Accept" ++ py ":" ++ quoted "application/json" ++ py "}".

Definition msg_parse_failed (e snippet : pystr) : pystr :=
  py "headers 解析失败：" ++ e ++ py ". 你传入的是：" ++ snippet ++ py "...；"
  ++ py "请使用 JSON，例如：" ++ JSON_EXAMPLE.

(** The loop of lines 39-49 over the comma-separated parts. *)
Fixpoint brace_items (parts : list pystr) (parsed : gmap pystr pystr)
  : result (gmap pystr pystr) :=
  match parts with
  | [] => Ok parsed
  | part :: parts' =>
    let part := strip part in
    if is_empty part then brace_items parts' parsed
    else if has_char COLON part then
      let '(k, v) := split1 COLON part in
      brace_items parts' (<[strip k := strip v]> parsed)
    else if has_char EQUALS part then
      let '(k, v) := split1 EQUALS part in
      brace_items parts' (<[strip k := strip v]> parsed)
    else Raise (ValueError (MSG_ITEM ++ part))
  end.

(** A [Dict[str, str]] seen as a dynamically typed value. *)
Definition str_item (kv : pystr * pystr) : pyvalue * pyvalue :=
  (PyStr kv.1, PyStr kv.2).
Definition py_of_dict (m : gmap pystr pystr) : pyvalue :=
  PyDict (str_item <$> map_to_list m).

(** Lines 61-63: the check and the copy [dict(data)]. *)
Definition is_str_item (kv : pyvalue * pyvalue) : bool :=
  match kv with
  | (PyStr _, PyStr _) => true
  | _ => false
  end.

Definition item_strs (kv : pyvalue * pyvalue) : option (pystr * pystr) :=
  match kv with
  | (PyStr k, PyStr v) => Some (k, v)
  | _ => None
  end.

Definition is_str_mapping (data : pyvalue) : bool :=
  match data with
  | PyDict items => forallb is_str_item items
  | _ => false
  end.

Definition dict_of (data : pyvalue) : gmap pystr pystr :=
  match data with
  | PyDict items => list_to_map (omap item_strs items)
  | _ => ∅
  end.

Definition validate (data : pyvalue) : result (gmap pystr pystr) :=
  if negb (is_str_mapping data) then Raise (ValueError MSG_MAPPING)
  else Ok (dict_of data).

(** The test of line 34 on the stripped text. *)
Definition is_brace_list (stripped : pystr) : bool :=
  startswith [LBRACE] stripped && endswith [RBRACE] stripped
  && negb (has_char DQUOTE stripped) && negb (has_char SQUOTE stripped).

Section Probe.

(** Library functions the program calls: [json.loads] (a value, a
    [JSONDecodeError], or another exception, which line 31 does not catch),
    [ast.literal_eval] (a value, or the text of the exception it raised)
    and [str.lower]. *)
Context (json_loads : pystr → Json.loads_result).
Context (literal_eval : pystr → pyvalue + pystr).
Context (lower : pystr → pystr).

Definition parse_headers (raw : option pystr) : result (gmap pystr pystr) :=
  match raw with
  | None | Some [] => Ok ∅
  | Some raw =>
    match json_loads raw with
    | Json.Value data => validate data
    | Json.Raises e => Raise e
    | Json.JSONDecodeError =>
      let stripped := strip raw in
      if is_brace_list stripped then
        let inner := strip (slice_1_m1 stripped) in
        if is_empty inner then Ok ∅
        else
          match brace_items (split_char COMMA inner) ∅ with
          | Ok parsed => validate (py_of_dict parsed)
          | Raise e => Raise e
          end
      else
        match literal_eval raw with
        | inl data => validate data
        | inr e =>
          let snippet := slice_to 120 (replace_char LF SPACE raw) in
          Raise (ValueError (msg_parse_failed e snippet))
        end
    end
  end.

(** *** [main] (lines 73-160)

    What the process sees of the outside: the file system (the text of the
    env file, if it exists), the environment, what the operator types at the
    [getpass] prompt, what creating the HTTP client with a header mapping
    does (nothing, or the exception it raises: line 128 is outside any
    [try]), and the server's answer to each request (a response, or the
    [repr] of the exception the client raised, which lines 135 and 155
    catch).  The prompt is taken to be answered, and the standard output to
    accept every line. *)
Record Response : Type := {
  status_code : Z;
  content_type : option pystr;
  text : pystr }.

Record World : Type := {
  read_env_file : pystr → option pystr;
  environ : gmap pystr pystr;
  getpass_input : pystr;
  http_client : gmap pystr pystr → option exn;
  http_get : pystr → gmap pystr pystr → Response + pystr;
  http_post : pystr → gmap pystr pystr → pyvalue → Response + pystr }.

(** The parsed command line. *)
Record Args : Type := {
  arg_env_file : pystr;
  arg_base_url : option pystr;
  arg_model : option pystr;
  arg_headers : option pystr;
  arg_header : list pystr;
  arg_prompt_key : bool }.

(** What the process does to the outside, in order. *)
Inductive event : Type :=
| Print (line : pystr)
| Getpass (prompt : pystr)
| HttpGet (url : pystr) (headers : gmap pystr pystr)
| HttpPost (url : pystr) (headers : gmap pystr pystr) (json : pyvalue).

(** How the process ends: [main] returns an exit code, or an exception
    leaves it uncaught. *)
Inductive outcome : Type :=
| Exit (code : Z)
| Uncaught (e : exn).

(** [print(a, b)]. *)
Definition print2 (a b : pystr) : event := Print (a ++ [SPACE] ++ b).

Definition MSG_FLAG : pystr := py "--header 格式应为 Key:Value 或 Key=Value".
Definition MSG_NO_BASE_URL : pystr :=
  py "缺少 base_url：请传 --base-url 或设置 MODEL_BASE_URL".
Definition MSG_NO_API_KEY : pystr :=
  py "缺少 API_KEY：请设置环境变量 API_KEY，或加 --prompt-key".
Definition MSG_WAF : pystr :=
  py "=> 看起来是 WAF/Cloudflare 拦截（返回了 HTML 且包含 blocked 字样）".
Definition MSG_NO_MODEL : pystr :=
  py "未指定 model：跳过 /chat/completions（可用 --model 或设置 MODEL_NAME）".

(** Lines 100-110: the repeated [--header] flags, merged into the mapping
    the bulk specification gave. *)
Fixpoint header_flags (items : list pystr) (extra_headers : gmap pystr pystr)
  : result (gmap pystr pystr) :=
  match items with
  | [] => Ok extra_headers
  | item :: items' =>
    let item := strip item in
    if is_empty item then header_flags items' extra_headers
    else if has_char COLON item then
      let '(k, v) := split1 COLON item in
      header_flags items' (<[strip k := strip v]> extra_headers)
    else if has_char EQUALS item then
      let '(k, v) := split1 EQUALS item in
      header_flags items' (<[strip k := strip v]> extra_headers)
    else Raise (ValueError MSG_FLAG)
  end.

(** Lines 119-122. *)
Definition final_headers (extra_headers : gmap pystr pystr) (api_key : pystr)
  : gmap pystr pystr :=
  let headers := extra_headers in
  let headers := setdefault (py "Accept") (py "application/json") headers in
  let headers := setdefault (py "User-Agent") (py "Mozilla/5.0") headers in
  <[py "Authorization" := py "Bearer " ++ api_key]> headers.

(** Lines 131-136: the first probe. *)
Definition models_probe (w : World) (base_url : pystr)
    (headers : gmap pystr pystr) : list event :=
  let url := base_url ++ py "/models" in
  HttpGet url headers ::
  match http_get w url headers with
  | inl r =>
    [ print2 (py "/models status:") (py (pretty (status_code r)));
      print2 (py "/models content-type:") (default [] (content_type r));
      print2 (py "/models body(head):") (summarize_body (text r)) ]
  | inr e => [ print2 (py "/models error:") e ]
  end.

(** Line 153: the block-page heuristic on the content type and the body
    excerpt. *)
Definition looks_blocked (ct body_head : pystr) : bool :=
  contains (py "text/html") (lower ct)
  && (contains (py "blocked") (lower body_head)
      || contains (py "request was blocked") (lower body_head)).

(** Lines 148-154: what is printed for a response to the second probe. *)
Definition chat_report (r : Response) : list event :=
  let ct := default [] (content_type r) in
  let body_head := summarize_body (text r) in
  [ print2 (py "/chat/completions status:") (py (pretty (status_code r)));
    print2 (py "/chat/completions content-type:") ct;
    print2 (py "/chat/completions body(head):") body_head ]
  ++ (if looks_blocked ct body_head then [Print MSG_WAF] else []).

Definition chat_payload (model : pystr) : pyvalue :=
  PyDict
    [ (PyStr (py "model"), PyStr model);
      (PyStr (py "messages"),
       PyList [PyDict [ (PyStr (py "role"), PyStr (py "user"));
                        (PyStr (py "content"), PyStr (py "ping")) ]]);
      (PyStr (py "max_tokens"), PyInt 1);
      (PyStr (py "temperature"), PyInt 0) ].

(** Lines 139-158: the second probe. *)
Definition chat_probe (w : World) (base_url model : pystr)
    (headers : gmap pystr pystr) : list event :=
  if is_empty model then [Print MSG_NO_MODEL]
  else
    let url := base_url ++ py "/chat/completions" in
    HttpPost url headers (chat_payload model) ::
    match http_post w url headers (chat_payload model) with
    | inl r => chat_report r
    | inr e => [ print2 (py "/chat/completions error:") e ]
    end.

(** Lines 99-110: the extra headers, from the bulk specification and the
    repeated flags. *)
Definition extra_headers_of (env : gmap pystr pystr) (a : Args)
  : result (gmap pystr pystr) :=
  match parse_headers (or_else (arg_headers a) Some
                         (getenv_opt env "MODEL_DEFAULT_HEADERS")) with
  | Ok extra_headers => header_flags (arg_header a) extra_headers
  | Raise e => Raise e
  end.

(** Line 90: the environment [load_env_file] leaves, and the exception it
    ends with, if any. *)
Definition loaded_env (w : World) (a : Args) : gmap pystr pystr :=
  (load_env_file (read_env_file w (arg_env_file a)) (environ w)).1.

Definition load_error (w : World) (a : Args) : option exn :=
  (load_env_file (read_env_file w (arg_env_file a)) (environ w)).2.

(** Lines 92-97: the configuration as resolved from the flags, the
    environment and the prompt. *)
Definition resolve_base_url (env : gmap pystr pystr) (a : Args) : pystr :=
  rstrip_chars [SLASH]
    (or_else (arg_base_url a) id (getenv env "MODEL_BASE_URL" [])).

Definition resolve_model (env : gmap pystr pystr) (a : Args) : pystr :=
  or_else (arg_model a) id (getenv env "MODEL_NAME" []).

Definition prompts_for_key (env : gmap pystr pystr) (a : Args) : bool :=
  is_empty (getenv env "API_KEY" []) && arg_prompt_key a.

Definition key_prompt (env : gmap pystr pystr) (a : Args) : list event :=
  if prompts_for_key env a then [Getpass (py "API_KEY (不会回显): ")] else [].

Definition resolve_api_key (w : World) (env : gmap pystr pystr) (a : Args)
  : pystr :=
  if prompts_for_key env a then strip (getpass_input w)
  else getenv env "API_KEY" [].

(** The run: an exception of [load_env_file] (line 90), of the header
    parsing (lines 99-110) or of the creation of the client (line 128) ends
    it, as nothing catches them. *)
Definition main (w : World) (a : Args) : list event * outcome :=
  match load_error w a with
  | Some e => ([], Uncaught e)
  | None =>
    let env := loaded_env w a in
    let base_url := resolve_base_url env a in
    let model := resolve_model env a in
    let asked := key_prompt env a in
    let api_key := resolve_api_key w env a in
    match extra_headers_of env a with
    | Raise e => (asked, Uncaught e)
    | Ok extra_headers =>
      if is_empty base_url then (asked ++ [Print MSG_NO_BASE_URL], Exit 2)
      else if is_empty api_key then (asked ++ [Print MSG_NO_API_KEY], Exit 2)
      else
        let headers := final_headers extra_headers api_key in
        let shown :=
          [ print2 (py "base_url:") base_url;
            print2 (py "model:")
                   (if is_empty model then py "(未指定)" else model);
            print2 (py "extra_headers:")
                   (if decide (extra_headers = ∅) then py "off" else py "on") ]
        in
        match http_client w headers with
        | Some e => (asked ++ shown, Uncaught e)
        | None =>
          (asked ++ shown
           ++ models_probe w base_url headers
           ++ chat_probe w base_url model headers,
           Exit 0)
        end
    end
  end.

End Probe.

(** ** Instances of the library functions

    [ast.literal_eval] and [str.lower] are parameters of the program above.
    To run it on concrete inputs they are instantiated on a fragment: plainly
    quoted strings and dict displays of them, and ASCII text. *)
Module Literal.

Definition SYNTAX_ERROR : pystr := py "invalid syntax (<unknown>, line 1)".
Definition SYNTAX_ERROR_EMPTY : pystr :=
  py "invalid syntax (<unknown>, line 0)".

Definition is_blank (c : N) : bool := (c =? 32) || (c =? 9).
Definition skip_blanks (s : pystr) : pystr := drop_while is_blank s.
Definition is_quote (c : N) : bool := (c =? SQUOTE) || (c =? DQUOTE).

(** The text of a string literal after its opening quote [q]: no escapes
    and no control characters. *)
Fixpoint quoted_text (q : N) (s : pystr) : option (pystr * pystr) :=
  match s with
  | [] => None
  | c :: r =>
    if c =? q then Some ([], r)
    else if (c =? 92) || (c <? 32) then None
    else Json.emit c (quoted_text q r)
  end.

Definition string_literal (s : pystr) : option (pystr * pystr) :=
  match s with
  | q :: r => if is_quote q then quoted_text q r else None
  | [] => None
  end.

(** The items of a dict display, from the first key on. *)
Fixpoint dict_items (fuel : nat) (acc : list (pyvalue * pyvalue)) (s : pystr)
  : option (list (pyvalue * pyvalue)) :=
  match fuel with
  | O => None
  | S fuel' =>
    match string_literal s with
    | Some (k, r1) =>
      match skip_blanks r1 with
      | c :: r2 =>
        if c =? COLON then
          match string_literal (skip_blanks r2) with
          | Some (v, r3) =>
            let acc' := dict_set k (PyStr v) acc in
            match skip_blanks r3 with
            | c' :: r4 =>
              if c' =? RBRACE then
                if is_empty (skip_blanks r4) then Some acc' else None
              else if c' =? COMMA then
                match skip_blanks r4 with
                | c'' :: r5 =>
                  if c'' =? RBRACE
                  then if is_empty (skip_blanks r5) then Some acc' else None
                  else dict_items fuel' acc' (c'' :: r5)
                | [] => None
                end
              else None
            | [] => None
            end
          | None => None
          end
        else None
      | [] => None
      end
    | None => None
    end
  end.

(** [ast.literal_eval] on the fragment: a dict display, or one string
    literal.  Any other text is reported as a syntax error, which is what
    CPython answers on the texts this file runs it on. *)
Definition eval (s : pystr) : pyvalue + pystr :=
  match skip_blanks s with
  | c :: r =>
    if c =? LBRACE then
      match skip_blanks r with
      | c' :: r' =>
        if c' =? RBRACE then
          if is_empty (skip_blanks r') then inl (PyDict []) else inr SYNTAX_ERROR
        else match dict_items (length s) [] (c' :: r') with
             | Some items => inl (PyDict items)
             | None => inr SYNTAX_ERROR
             end
      | [] => inr SYNTAX_ERROR
      end
    else
      match string_literal (c :: r) with
      | Some (v, r') =>
        if is_empty (skip_blanks r') then inl (PyStr v) else inr SYNTAX_ERROR
      | None => inr SYNTAX_ERROR
      end
  | [] => inr SYNTAX_ERROR_EMPTY
  end.

End Literal.

(** [str.lower] on ASCII text. *)
Definition lower_ascii (s : pystr) : pystr :=
  map (λ c, if (65 <=? c) && (c <=? 90) then c + 32 else c) s.

Definition is_ascii (s : pystr) : bool := forallb (λ c, c <? 128) s.

(** [httpx.Client(headers=...)]: the names and the values of the headers
    are encoded as ASCII when the client is created. *)
Definition ascii_headers (headers : gmap pystr pystr) : bool :=
  forallb (λ kv, is_ascii kv.1 && is_ascii kv.2) (map_to_list headers).

Definition ascii_client (headers : gmap pystr pystr) : option exn :=
  if ascii_headers headers then None else Some UnicodeEncodeError.

(** ** The specification's vocabulary

    Definitions that follow the words of the specification, to be compared
    with the program above. *)

(** An item has neither separator. *)
Definition lacks_separator (item : pystr) : bool :=
  negb (has_char COLON item) && negb (has_char EQUALS item).

(** An item split on the first colon or, if there is none, on the first
    equals sign, with key and value trimmed. *)
Definition item_pair (item : pystr) : option (pystr * pystr) :=
  if has_char COLON item then
    let kv := split1 COLON item in Some (strip kv.1, strip kv.2)
  else if has_char EQUALS item then
    let kv := split1 EQUALS item in Some (strip kv.1, strip kv.2)
  else None.

(** The items that are looked at: each part trimmed, blank ones left out. *)
Definition items_of (parts : list pystr) : list pystr :=
  List.filter (λ p, negb (is_empty p)) (strip <$> parts).

(** The mapping a sequence of key-value pairs denotes when later pairs
    override earlier ones. *)
Definition last_wins (kvs : list (pystr * pystr)) : gmap pystr pystr :=
  list_to_map (reverse kvs).

(** Whitespace collapsed: every run of whitespace becomes one space, and
    there is none at either end. *)
Fixpoint ws_words (cur : pystr) (s : pystr) : list pystr :=
  match s with
  | [] => if is_empty cur then [] else [rev cur]
  | c :: s' =>
    if isspace c
    then (if is_empty cur then ws_words [] s' else rev cur :: ws_words [] s')
    else ws_words (c :: cur) s'
  end.

Definition whitespace_collapsed (s : pystr) : pystr :=
  join [SPACE] (ws_words [] s).

(** Truncation to [limit] characters with the ellipsis marker. *)
Definition truncated (limit : nat) (s : pystr) : pystr :=
  if (limit <? length s)%nat then take limit s ++ py "..." else s.

(** A request went out. *)
Definition is_http_call (e : event) : bool :=
  match e with
  | HttpGet _ _ | HttpPost _ _ _ => true
  | _ => false
  end.

(** The headers a request carried. *)
Definition sent_headers (e : event) : option (gmap pystr pystr) :=
  match e with
  | HttpGet _ h | HttpPost _ h _ => Some h
  | _ => None
  end.

(** ** Example inputs *)

(** The command line with no flag given. *)
Definition no_flags : Args :=
  {| arg_env_file := py ".env"; arg_base_url := None; arg_model := None;
     arg_headers := None; arg_header := []; arg_prompt_key := false |}.

Definition with_header_flags (items : list pystr) (a : Args) : Args :=
  {| arg_env_file := arg_env_file a; arg_base_url := arg_base_url a;
     arg_model := arg_model a; arg_headers := arg_headers a;
     arg_header := items; arg_prompt_key := arg_prompt_key a |}.

Definition with_base_url (url model : pystr) (a : Args) : Args :=
  {| arg_env_file := arg_env_file a; arg_base_url := Some url;
     arg_model := Some model; arg_headers := arg_headers a;
     arg_header := arg_header a; arg_prompt_key := arg_prompt_key a |}.

(** A machine with no env file, and a server that answers every request
    with the response [r]. *)
Definition world_with (env : gmap pystr pystr) (r : Response) : World :=
  {| read_env_file := λ _, None; environ := env; getpass_input := [];
     http_client := ascii_client;
     http_get := λ _ _, inl r; http_post := λ _ _ _, inl r |}.


Definition html_response (body : pystr) : Response :=
  {| status_code := 403; content_type := Some (py "text/html"); text := body |}.

Definition json_response (body : pystr) : Response :=
  {| status_code := 200; content_type := Some (py "application/json");
     text := body |}.

(** ** Vocabulary for further properties *)

(** What a line of the env file defines, if anything (lines 17-22): the
    trimmed name before the first equals sign and the value after it,
    trimmed and with the double quotes at its ends removed. *)
Definition env_entry (line : pystr) : option (pystr * pystr) :=
  let line := strip line in
  if is_empty line || startswith [HASH] line || negb (has_char EQUALS line)
  then None
  else
    let kv := split1 EQUALS line in
    Some (strip kv.1, strip_chars [DQUOTE] (strip kv.2)).

(** A name and a value the operating system accepts for a new variable:
    text that can be encoded, no NUL character, no equals sign in the name,
    and a name that is not empty. *)
Definition env_accepts (k v : pystr) : bool :=
  forallb fs_encodable k && forallb fs_encodable v
  && negb (has_char NUL k) && negb (has_char NUL v)
  && negb (has_char EQUALS k) && negb (is_empty k).

Definition env_entries (text : pystr) : list (pystr * pystr) :=
  omap env_entry (splitlines text).

(** The value the first entry for [k] gives. *)
Definition first_value (k : pystr) (entries : list (pystr * pystr))
  : option pystr :=
  snd <$> List.find (λ kv, bool_decide (kv.1 = k)) entries.

(** The variables the program reads. *)
Definition probe_variables : list string :=
  [ "MODEL_BASE_URL"; "MODEL_NAME"; "API_KEY"; "MODEL_DEFAULT_HEADERS" ]%string.

Definition is_prompt (e : event) : bool :=
  match e with
  | Getpass _ => true
  | _ => false
  end.

Definition KEY_PROMPT : pystr := py "API_KEY (不会回显): ".

(** The command line with another [--base-url]. *)
Definition set_base_url (url : option pystr) (a : Args) : Args :=
  {| arg_env_file := arg_env_file a; arg_base_url := url;
     arg_model := arg_model a; arg_headers := arg_headers a;
     arg_header := arg_header a; arg_prompt_key := arg_prompt_key a |}.

(** The fuel of the decoder: whatever a run with the fuel [n] returns or
    raises, a run with more fuel does too: as much fuel as characters
    consumed for a value, twice as much as there are characters (and
    [slack]) for an exception. *)
Definition fuel_enough {A : Type} (slack : nat)
    (f : nat → A → pystr → Json.scan pyvalue) (n : nat) : Prop :=
  ∀ a s,
    match f n a s with
    | Json.Scanned v r =>
      (length r < length s)%nat
      ∧ ∀ m, (length s - length r ≤ m)%nat → f m a s = Json.Scanned v r
    | Json.Failed e =>
      ∀ m, (2 * length s + slack ≤ m)%nat → f m a s = Json.Failed e
    | Json.Rejected => True
    end.

(** Closed goals are settled by evaluation. *)
Ltac by_compute :=
  vm_compute; repeat split; first [reflexivity | discriminate | done].

(** ** Facts about Python strings *)


Lemma has_char_app (c : N) (s t : pystr) :
  has_char c (s ++ t) = has_char c s || has_char c t.
Proof. unfold has_char. apply existsb_app. Qed.

Lemma has_char_rev (c : N) (s : pystr) : has_char c (rev s) = has_char c s.
Proof.
  induction s as [|x s IH]; [done|]. simpl. rewrite has_char_app, IH. simpl.
  rewrite orb_false_r. apply orb_comm.
Qed.

(** [split1] cuts at the first occurrence of the separator. *)
Lemma split1_spec (c : N) (s : pystr) :
  has_char c s = true →
  s = (split1 c s).1 ++ c :: (split1 c s).2 ∧ has_char c (split1 c s).1 = false.
Proof.
  induction s as [|x s IH]; simpl; [done|].
  rewrite N.eqb_sym. destruct (x =? c) eqn:Hx; simpl.
  - apply N.eqb_eq in Hx. by subst x.
  - intros Hs. destruct (IH Hs) as [Heq Hno].
    destruct (split1 c s) as [k v]. simpl in *.
    rewrite N.eqb_sym, Hx, Hno. by rewrite Heq at 1.
Qed.

(** What [drop_while] removes satisfies the predicate, and what is left
    does not start with it. *)
Lemma drop_while_spec (p : N → bool) (s : pystr) :
  ∃ l, s = l ++ drop_while p s ∧ forallb p l = true.
Proof.
  induction s as [|x s (l & Heq & Hl)]; simpl.
  - by exists [].
  - destruct (p x) eqn:Hx.
    + exists (x :: l). simpl. rewrite Hx, Hl. by rewrite Heq at 1.
    + by exists [].
Qed.

Lemma drop_while_head (p : N → bool) (s : pystr) :
  match drop_while p s with
  | [] => True
  | c :: _ => p c = false
  end.
Proof.
  induction s as [|x s IH]; simpl; [done|].
  destruct (p x) eqn:Hx; [done|]. by rewrite Hx.
Qed.

Lemma drop_while_has_char (p : N → bool) (c : N) (s : pystr) :
  p c = false → has_char c (drop_while p s) = has_char c s.
Proof.
  intros Hc. induction s as [|x s IH]; simpl; [done|].
  destruct (p x) eqn:Hx; [|done].
  rewrite IH. destruct (c =? x) eqn:Hcx; [|done].
  apply N.eqb_eq in Hcx. congruence.
Qed.

(** Stripping keeps the characters that are not stripped. *)
Lemma strip_with_has_char (p : N → bool) (c : N) (s : pystr) :
  p c = false → has_char c (strip_with p s) = has_char c s.
Proof.
  intros Hc. unfold strip_with, rstrip_with, lstrip_with.
  by rewrite has_char_rev, drop_while_has_char, has_char_rev, drop_while_has_char.
Qed.

(** [strip] removes whitespace at both ends, and only that. *)
Lemma strip_with_spec (p : N → bool) (s : pystr) :
  ∃ l r, s = l ++ strip_with p s ++ r
         ∧ forallb p l = true ∧ forallb p r = true.
Proof.
  unfold strip_with, rstrip_with, lstrip_with.
  destruct (drop_while_spec p s) as (l & Hl & Hpl).
  destruct (drop_while_spec p (rev (drop_while p s))) as (r & Hr & Hpr).
  exists l, (rev r). repeat split; [|done|].
  - rewrite <- rev_app_distr, <- Hr, rev_involutive. exact Hl.
  - rewrite forallb_forall in *. intros x Hx. apply Hpr. by apply in_rev.
Qed.

Lemma startswith_spec (p s : pystr) :
  startswith p s = true ↔ ∃ t, s = p ++ t.
Proof.
  revert s. induction p as [|a p IH]; intros s; simpl.
  - split; [by exists s | done].
  - destruct s as [|b s]; [split; [done | by intros [t Ht]]|].
    rewrite andb_true_iff, N.eqb_eq, IH. split.
    + intros [-> [t ->]]. by exists t.
    + intros [t Ht]. injection Ht as -> ->. split; [done | by exists t].
Qed.

Lemma contains_spec (sub s : pystr) :
  contains sub s = true ↔ ∃ a b, s = a ++ sub ++ b.
Proof.
  induction s as [|x s IH]; simpl.
  - rewrite orb_false_r, startswith_spec. split.
    + intros [t Ht]. by exists [], t.
    + intros (a & b & Hab). destruct a; [by exists b|done].
  - rewrite orb_true_iff, IH, startswith_spec. split.
    + intros [[t Ht] | (a & b & Hab)]; [by exists [], t|].
      exists (x :: a), b. by rewrite Hab.
    + intros (a & b & Hab). destruct a as [|y a]; [left; by exists b|].
      right. injection Hab as -> ->. by exists a, b.
Qed.

Lemma contains_app_l (sub s t : pystr) :
  contains sub s = true → contains sub (s ++ t) = true.
Proof.
  rewrite !contains_spec. intros (a & b & ->). exists a, (b ++ t).
  by rewrite <- !app_assoc.
Qed.

Lemma contains_app_r (sub s t : pystr) :
  contains sub t = true → contains sub (s ++ t) = true.
Proof.
  rewrite !contains_spec. intros (a & b & ->). exists (s ++ a), b.
  by rewrite <- !app_assoc.
Qed.


(** ** Facts about the header loops *)

Lemma last_wins_cons (k v : pystr) (kvs : list (pystr * pystr))
    (m : gmap pystr pystr) :
  last_wins ((k, v) :: kvs) ∪ m = last_wins kvs ∪ <[k := v]> m.
Proof.
  unfold last_wins. rewrite reverse_cons, list_to_map_app. simpl.
  rewrite <- (assoc_L (∪)). f_equal.
  rewrite insert_empty. symmetry. apply insert_union_singleton_l.
Qed.

Lemma items_of_cons (part : pystr) (parts : list pystr) :
  items_of (part :: parts) =
    if is_empty (strip part) then items_of parts
    else strip part :: items_of parts.
Proof. unfold items_of. simpl. by destruct (is_empty (strip part)). Qed.

(** The loop of [parse_headers] over the parts of a brace list: the first
    non-blank item without a separator stops it with an error; otherwise
    the items are merged, later ones overriding earlier ones. *)
Lemma brace_items_spec (parts : list pystr) (parsed : gmap pystr pystr) :
  brace_items parts parsed =
    match List.find lacks_separator (items_of parts) with
    | Some bad => Raise (ValueError (MSG_ITEM ++ bad))
    | None => Ok (last_wins (omap item_pair (items_of parts)) ∪ parsed)
    end.
Proof.
  revert parsed. induction parts as [|part parts IH]; intros parsed.
  - simpl. unfold last_wins. simpl. by rewrite (left_id_L ∅ (∪)).
  - rewrite items_of_cons. simpl.
    destruct (is_empty (strip part)) eqn:Hblank; [apply IH|].
    simpl. unfold lacks_separator at 1, item_pair at 1.
    destruct (has_char COLON (strip part)) eqn:Hc; simpl.
    + destruct (split1 COLON (strip part)) as [k v]. simpl.
      rewrite IH. destruct (List.find _ _); [done|].
      by rewrite last_wins_cons.
    + destruct (has_char EQUALS (strip part)) eqn:He; simpl; [|done].
      destruct (split1 EQUALS (strip part)) as [k v]. simpl.
      rewrite IH. destruct (List.find _ _); [done|].
      by rewrite last_wins_cons.
Qed.

(** The loop of [main] over the [--header] flags is the same loop, with
    another error message. *)
Lemma header_flags_spec (items : list pystr) (extra : gmap pystr pystr) :
  header_flags items extra =
    match List.find lacks_separator (items_of items) with
    | Some _ => Raise (ValueError MSG_FLAG)
    | None => Ok (last_wins (omap item_pair (items_of items)) ∪ extra)
    end.
Proof.
  revert extra. induction items as [|item items IH]; intros extra.
  - simpl. unfold last_wins. simpl. by rewrite (left_id_L ∅ (∪)).
  - rewrite items_of_cons. simpl.
    destruct (is_empty (strip item)) eqn:Hblank; [apply IH|].
    simpl. unfold lacks_separator at 1, item_pair at 1.
    destruct (has_char COLON (strip item)) eqn:Hc; simpl.
    + destruct (split1 COLON (strip item)) as [k v]. simpl.
      rewrite IH. destruct (List.find _ _); [done|].
      by rewrite last_wins_cons.
    + destruct (has_char EQUALS (strip item)) eqn:He; simpl; [|done].
      destruct (split1 EQUALS (strip item)) as [k v]. simpl.
      rewrite IH. destruct (List.find _ _); [done|].
      by rewrite last_wins_cons.
Qed.

(** The pair of an item: the item is cut at its first colon, or at its
    first equals sign when it has no colon, and both sides are trimmed. *)
Lemma item_pair_spec (item k v : pystr) :
  item_pair item = Some (k, v) →
  ∃ sep k0 v0,
    item = k0 ++ sep :: v0 ∧ has_char sep k0 = false
    ∧ k = strip k0 ∧ v = strip v0
    ∧ (sep = COLON ∨ (sep = EQUALS ∧ has_char COLON item = false)).
Proof.
  unfold item_pair.
  destruct (has_char COLON item) eqn:Hc.
  - intros [= <- <-]. destruct (split1_spec COLON item Hc) as [Heq Hno].
    exists COLON, (split1 COLON item).1, (split1 COLON item).2.
    split_and!; auto.
  - destruct (has_char EQUALS item) eqn:He; [|done].
    intros [= <- <-]. destruct (split1_spec EQUALS item He) as [Heq Hno].
    exists EQUALS, (split1 EQUALS item).1, (split1 EQUALS item).2.
    split_and!; auto.
Qed.

(** An item has a pair exactly when it has a separator. *)
Lemma item_pair_none (item : pystr) :
  item_pair item = None ↔ lacks_separator item = true.
Proof.
  unfold item_pair, lacks_separator.
  destruct (has_char COLON item), (has_char EQUALS item); simpl; split; done.
Qed.

(** A mapping of strings to strings passes the check of lines 61-63 and is
    copied unchanged. *)
Lemma validate_py_of_dict (m : gmap pystr pystr) :
  validate (py_of_dict m) = Ok m.
Proof.
  unfold validate, py_of_dict, is_str_mapping, dict_of.
  assert (Hall : ∀ l : list (pystr * pystr),
             forallb is_str_item (str_item <$> l) = true).
  { induction l as [|[k v] l IHl]; [done|]. simpl. exact IHl. }
  assert (Hback : ∀ l : list (pystr * pystr),
             omap item_strs (str_item <$> l) = l).
  { induction l as [|[k v] l IHl]; [done|]. simpl. f_equal. exact IHl. }
  rewrite Hall, Hback. simpl. by rewrite list_to_map_to_list.
Qed.

(** So is any dict holding the items of the mapping, in whatever order. *)
Lemma validate_items (items : list (pyvalue * pyvalue))
    (m : gmap pystr pystr) :
  items ≡ₚ str_item <$> map_to_list m → validate (PyDict items) = Ok m.
Proof.
  intros Hperm. unfold validate, is_str_mapping, dict_of.
  assert (Hall : forallb is_str_item items = true).
  { apply forallb_forall. intros x Hin. apply list_elem_of_In in Hin.
    rewrite Hperm in Hin. by apply list_elem_of_fmap in Hin as ([k v] & -> & _). }
  rewrite Hall. simpl. f_equal. symmetry. apply list_to_map_flip.
  rewrite Hperm. clear. induction (map_to_list m) as [|[k v] l IH]; [done|].
  simpl. by constructor.
Qed.

(** A value that is not a mapping of strings to strings is refused. *)
Lemma validate_refuses (data : pyvalue) :
  is_str_mapping data = false → validate data = Raise (ValueError MSG_MAPPING).
Proof. unfold validate. by intros ->. Qed.

Lemma strip_nil : strip [] = [].
Proof. reflexivity. Qed.

Section ParseHeaders.

Context (json_loads : pystr → Json.loads_result).
Context (literal_eval : pystr → pyvalue + pystr).

(** C1 (amended): for an input that is not valid JSON, is wrapped in braces
    once trimmed and contains no quote character, [parse_headers] splits
    the inner content on commas, trims each part and skips the parts that
    are blank; each remaining item is split on the first colon or, if there
    is none, on the first equals sign, key and value are trimmed, and the
    resulting mapping is returned, later items overriding earlier ones.  The
    first non-blank item that has neither separator raises the parse error,
    which aborts the whole parse. *)
Theorem parse_headers_brace_list (raw : pystr) :
  json_loads raw = Json.JSONDecodeError →
  startswith [LBRACE] (strip raw) = true →
  endswith [RBRACE] (strip raw) = true →
  has_char DQUOTE raw = false →
  has_char SQUOTE raw = false →
  let inner := strip (slice_1_m1 (strip raw)) in
  let items := items_of (split_char COMMA inner) in
  parse_headers json_loads literal_eval (Some raw) =
    match List.find lacks_separator items with
    | Some bad => Raise (ValueError (MSG_ITEM ++ bad))
    | None => Ok (last_wins (omap item_pair items))
    end.
Proof.
  intros Hjson Hopen Hclose Hdq Hsq inner items.
  assert (Hbrace : is_brace_list (strip raw) = true).
  { unfold is_brace_list. rewrite Hopen, Hclose. unfold strip.
    by rewrite !strip_with_has_char, Hdq, Hsq. }
  unfold parse_headers. destruct raw as [|c raw']; [done|].
  rewrite Hjson, Hbrace. fold inner.
  destruct (is_empty inner) eqn:Hinner.
  - subst items. destruct inner; [|done]. by_compute.
  - rewrite brace_items_spec. fold items.
    destruct (List.find lacks_separator items); [done|].
    rewrite (right_id_L ∅ (∪)). apply validate_py_of_dict.
Qed.

End ParseHeaders.

(** C1: the specification's example, through the theorem. *)
Lemma parse_headers_brace_list_example :
  parse_headers Json.loads Literal.eval
    (Some (py "{User-Agent:Mozilla/5.0,Accept:application/json}"))
  = Ok {[ py "User-Agent" := py "Mozilla/5.0";
          py "Accept" := py "application/json" ]}.
Proof.
  etrans; [apply (parse_headers_brace_list Json.loads Literal.eval)|];
    by_compute.
Defined.

(** C1 as stated fails: a blank item has neither separator, and it is
    skipped instead of raising. *)
Lemma parse_headers_blank_item_skipped :
  let raw := py "{a:b,,c:d}" in
  Json.loads raw = Json.JSONDecodeError
  ∧ is_brace_list raw = true
  ∧ split_char COMMA (slice_1_m1 raw) = [py "a:b"; []; py "c:d"]
  ∧ lacks_separator [] = true
  ∧ parse_headers Json.loads Literal.eval (Some raw)
    = Ok {[ py "a" := py "b"; py "c" := py "d" ]}.
Proof. by_compute. Qed.

Section HeaderFlags.

Context (json_loads : pystr → Json.loads_result).
Context (literal_eval : pystr → pyvalue + pystr).

(** C3 (amended): the values of the repeated [--header] flags are trimmed
    and the blank ones skipped; each remaining item is split on the first
    colon if there is one, otherwise on the first equals sign, key and
    value are trimmed, and the pairs are merged on top of the mapping the
    bulk specification produced: later flags override earlier ones, and
    flags override the bulk mapping.  A non-blank item with neither
    separator raises the fatal error. *)
Theorem header_flags_merge (env : gmap pystr pystr) (a : Args)
    (bulk : gmap pystr pystr) :
  parse_headers json_loads literal_eval
    (or_else (arg_headers a) Some (getenv_opt env "MODEL_DEFAULT_HEADERS"))
  = Ok bulk →
  let items := items_of (arg_header a) in
  extra_headers_of json_loads literal_eval env a =
    match List.find lacks_separator items with
    | Some _ => Raise (ValueError MSG_FLAG)
    | None => Ok (last_wins (omap item_pair items) ∪ bulk)
    end.
Proof.
  intros Hbulk items. unfold extra_headers_of. rewrite Hbulk.
  apply header_flags_spec.
Qed.

End HeaderFlags.

(** C3: the specification's example, [--header A:1 --header B=2 --header A:3]
    with no bulk specification, through the theorem. *)
Lemma header_flags_merge_example :
  extra_headers_of Json.loads Literal.eval ∅
    (with_header_flags [py "A:1"; py "B=2"; py "A:3"] no_flags)
  = Ok {[ py "A" := py "3"; py "B" := py "2" ]}.
Proof.
  etrans; [apply (header_flags_merge Json.loads Literal.eval ∅ _ ∅)|];
    by_compute.
Defined.

(** C3 as stated fails: a flag whose value is blank has neither separator,
    and it is skipped instead of raising. *)
Lemma header_flag_blank_skipped :
  lacks_separator (py " ") = true
  ∧ extra_headers_of Json.loads Literal.eval ∅
      (with_header_flags [py "A:1"; py " "] no_flags)
    = Ok {[ py "A" := py "1" ]}.
Proof. by_compute. Qed.

(** ** Facts about [load_env_file] *)

Lemma environ_setdefault_subseteq (k v : pystr) (d d' : gmap pystr pystr) :
  environ_setdefault k v d = Ok d' → d ⊆ d'.
Proof.
  unfold environ_setdefault. destruct (negb (forallb fs_encodable k)); [done|].
  destruct (d !! k) eqn:Hk; [by intros [= <-]|].
  repeat (case_match; [done|]). intros [= <-]. by apply insert_subseteq.
Qed.

Lemma load_env_line_subseteq (env env' : gmap pystr pystr) (line : pystr) :
  load_env_line env line = Ok env' → env ⊆ env'.
Proof.
  unfold load_env_line.
  destruct (_ || _ || _); [by intros [= <-]|].
  destruct (split1 EQUALS (strip line)) as [key value].
  apply environ_setdefault_subseteq.
Qed.

Lemma load_env_lines_subseteq (lines : list pystr) (env : gmap pystr pystr) :
  env ⊆ (load_env_lines lines env).1.
Proof.
  revert env. induction lines as [|line lines IH]; intros env; simpl; [done|].
  destruct (load_env_line env line) as [env'|e] eqn:Hline; [|done].
  etrans; [by eapply load_env_line_subseteq | apply IH].
Qed.

(** The loader only ever adds to the environment, also when it ends with an
    exception. *)
Lemma load_env_file_subseteq (file : option pystr) (env : gmap pystr pystr) :
  env ⊆ (load_env_file file env).1.
Proof.
  destruct file as [text|]; simpl; [|done]. apply load_env_lines_subseteq.
Qed.

(** C5: a variable that is set before [load_env_file] runs has the same
    value afterwards, whatever the file contains and however the loading
    ends: a line sets its key only when the key is unset, and nothing is
    ever removed. *)
Theorem load_env_file_keeps (file : option pystr) (env : gmap pystr pystr)
    (k v : pystr) :
  env !! k = Some v → (load_env_file file env).1 !! k = Some v.
Proof.
  intros Hk. by eapply lookup_weaken; [|apply load_env_file_subseteq].
Qed.

(** C5: the specification's example; the file says [API_KEY=secret], the
    environment [API_KEY=live]. *)
Lemma load_env_file_keeps_example :
  (load_env_file (Some (py "API_KEY=secret")) {[ py "API_KEY" := py "live" ]}).1
    !! py "API_KEY" = Some (py "live").
Proof. apply load_env_file_keeps. by_compute. Defined.

(** ** Facts about [main] *)

Lemma key_prompt_no_http (env : gmap pystr pystr) (a : Args) (e : event) :
  e ∈ key_prompt env a → is_http_call e = false ∧ sent_headers e = None.
Proof.
  unfold key_prompt. destruct (prompts_for_key env a).
  - intros ->%list_elem_of_singleton. done.
  - by intros ?%elem_of_nil.
Qed.

Lemma is_empty_true (s : pystr) : is_empty s = true ↔ s = [].
Proof. by destruct s. Qed.

Lemma is_empty_false (s : pystr) : is_empty s = false ↔ s ≠ [].
Proof. by destruct s. Qed.

(** What lines 119-122 build from the extra headers and the key. *)
Lemma final_headers_spec (extra : gmap pystr pystr) (api_key : pystr) :
  let h := final_headers extra api_key in
  h !! py "Authorization" = Some (py "Bearer " ++ api_key)
  ∧ h !! py "Accept"
    = Some (default (py "application/json") (extra !! py "Accept"))
  ∧ h !! py "User-Agent"
    = Some (default (py "Mozilla/5.0") (extra !! py "User-Agent"))
  ∧ ∀ k, k ≠ py "Authorization" → k ≠ py "Accept" → k ≠ py "User-Agent" →
         h !! k = extra !! k.
Proof.
  assert (Hne1 : py "Authorization" ≠ py "Accept") by by_compute.
  assert (Hne2 : py "Authorization" ≠ py "User-Agent") by by_compute.
  assert (Hne3 : py "User-Agent" ≠ py "Accept") by by_compute.
  unfold final_headers, setdefault. cbv zeta.
  generalize dependent (py "Authorization").
  generalize dependent (py "Accept").
  generalize dependent (py "User-Agent").
  generalize (py "application/json") (py "Mozilla/5.0") (py "Bearer " ++ api_key).
  intros vA vU vB kU kA Hne3 kB Hne1 Hne2.
  assert (kA ≠ kU) by congruence.
  assert (kA ≠ kB) by congruence.
  assert (kU ≠ kB) by congruence.
  destruct (extra !! kA) as [a|] eqn:HA; simpl.
  - destruct (extra !! kU) as [u|] eqn:HU; simpl;
      repeat split; intros; by simplify_map_eq.
  - rewrite (lookup_insert_ne extra kA kU) by done.
    destruct (extra !! kU) as [u|] eqn:HU; simpl;
      repeat split; intros; by simplify_map_eq.
Qed.

Lemma models_probe_sent (w : World) (base_url : pystr)
    (headers h : gmap pystr pystr) (e : event) :
  e ∈ models_probe w base_url headers → sent_headers e = Some h → h = headers.
Proof.
  unfold models_probe. intros [-> | He]%elem_of_cons; [by intros [= ->]|].
  destruct (http_get w _ headers); set_unfold; by destruct_or!; subst.
Qed.

Section ChatProbe.

Context (lower : pystr → pystr).

Lemma chat_report_no_http (r : Response) (e : event) :
  e ∈ chat_report lower r → sent_headers e = None.
Proof.
  unfold chat_report. destruct (looks_blocked _ _ _);
    set_unfold; by intros; destruct_or!; subst.
Qed.

Lemma chat_probe_sent (w : World) (base_url model : pystr)
    (headers h : gmap pystr pystr) (e : event) :
  e ∈ chat_probe lower w base_url model headers →
  sent_headers e = Some h → h = headers.
Proof.
  unfold chat_probe. destruct (is_empty model).
  - by intros ->%list_elem_of_singleton.
  - intros [-> | He]%elem_of_cons; [by intros [= ->]|].
    destruct (http_post w _ headers _).
    + apply chat_report_no_http in He. congruence.
    + apply list_elem_of_singleton in He. by subst.
Qed.

End ChatProbe.

Section Main.

Context (json_loads : pystr → Json.loads_result).
Context (literal_eval : pystr → pyvalue + pystr).
Context (lower : pystr → pystr).


(** C6: every request the program sends carries the headers built from the
    parsed extra headers and the (non-empty) key: [Authorization] is
    [Bearer] followed by the key whatever the extra headers said, [Accept]
    and [User-Agent] have their default value only where the extra headers
    did not set them, and every other entry is the one of the extra
    headers. *)
Theorem main_sends_final_headers (w : World) (a : Args) (e : event)
    (h : gmap pystr pystr) :
  e ∈ (main json_loads literal_eval lower w a).1 →
  sent_headers e = Some h →
  let env := loaded_env w a in
  let api_key := resolve_api_key w env a in
  ∃ extra,
    extra_headers_of json_loads literal_eval env a = Ok extra
    ∧ api_key ≠ []
    ∧ h !! py "Authorization" = Some (py "Bearer " ++ api_key)
    ∧ h !! py "Accept"
      = Some (default (py "application/json") (extra !! py "Accept"))
    ∧ h !! py "User-Agent"
      = Some (default (py "Mozilla/5.0") (extra !! py "User-Agent"))
    ∧ ∀ k, k ≠ py "Authorization" → k ≠ py "Accept" → k ≠ py "User-Agent" →
           h !! k = extra !! k.
Proof.
  intros He Hsent env api_key. unfold main in He. fold env api_key in He.
  destruct (load_error w a) as [err|]; [by apply elem_of_nil in He|].
  destruct (extra_headers_of json_loads literal_eval env a) as [extra|err].
  - destruct (is_empty (resolve_base_url env a)) eqn:Hb.
    { simpl in He. apply elem_of_app in He as [He | He].
      - destruct (key_prompt_no_http _ _ _ He) as [_ Hn]. congruence.
      - apply list_elem_of_singleton in He. by subst. }
    destruct (is_empty api_key) eqn:Hk.
    { simpl in He. apply elem_of_app in He as [He | He].
      - destruct (key_prompt_no_http _ _ _ He) as [_ Hn]. congruence.
      - apply list_elem_of_singleton in He. by subst. }
    exists extra. split; [done|]. split; [by apply is_empty_false|].
    assert (h = final_headers extra api_key) as ->.
    { cbv zeta in He.
      destruct (http_client w (final_headers extra api_key)); cbn [fst] in He;
        rewrite !elem_of_app in He.
      - destruct He as [He | He].
        + destruct (key_prompt_no_http _ _ _ He) as [_ Hn]. congruence.
        + set_unfold. by destruct_or!; subst.
      - destruct He as [He | [He | [He | He]]].
        + destruct (key_prompt_no_http _ _ _ He) as [_ Hn]. congruence.
        + set_unfold. by destruct_or!; subst.
        + by eapply models_probe_sent.
        + by eapply chat_probe_sent. }
    apply final_headers_spec.
  - simpl in He. destruct (key_prompt_no_http _ _ _ He) as [_ Hn]. congruence.
Qed.

End Main.



(** C6: a run where the operator supplied [Authorization] and [Accept]
    themselves; the first request still carries the bearer token, keeps the
    operator's [Accept] and gets the default [User-Agent]. *)
Lemma main_sends_final_headers_example :
  let w := world_with {[ py "API_KEY" := py "k" ]} (json_response (py "{}")) in
  let a := with_header_flags [py "Authorization: mine"; py "Accept: text/plain"]
             (with_base_url (py "http://x/v1") (py "m") no_flags) in
  let h := final_headers {[ py "Authorization" := py "mine";
                            py "Accept" := py "text/plain" ]} (py "k") in
  h !! py "Authorization" = Some (py "Bearer k")
  ∧ h !! py "Accept" = Some (py "text/plain")
  ∧ h !! py "User-Agent" = Some (py "Mozilla/5.0").
Proof.
  intros w a h.
  destruct (main_sends_final_headers Json.loads Literal.eval lower_ascii
              w a (HttpGet (py "http://x/v1/models") h) h)
    as (extra & Hextra & _ & Hauth & Haccept & Hagent & _).
  - apply (list_elem_of_lookup_2 _ 3). by_compute.
  - reflexivity.
  - assert (Ok extra = Ok {[ py "Authorization" := py "mine";
                            py "Accept" := py "text/plain" ]}) as [= ->].
    { rewrite <- Hextra. by_compute. }
    by rewrite Hauth, Haccept, Hagent.
Defined.

Section ParseFailure.

Context (json_loads : pystr → Json.loads_result).
Context (literal_eval : pystr → pyvalue + pystr).


End ParseFailure.



(** ** Facts about the block-page heuristic *)

(** A printed line that does not start with an equals sign is not the
    diagnostic line. *)
Lemma print2_head (a b : pystr) (c : N) :
  head a = Some c → c ≠ EQUALS → print2 a b ≠ Print MSG_WAF.
Proof.
  destruct a as [|c' a]; [done|]. intros [= ->] Hc Heq.
  apply (f_equal (λ e, match e with Print line => head line | _ => None end))
    in Heq.
  apply Hc. revert Heq. vm_compute. by intros [= ->].
Qed.

Section BlockPage.

Context (lower : pystr → pystr).

Lemma chat_report_waf (r : Response) :
  Print MSG_WAF ∈ chat_report lower r ↔
  looks_blocked lower (default [] (content_type r)) (summarize_body (text r))
  = true.
Proof.
  unfold chat_report. rewrite elem_of_app.
  destruct (looks_blocked _ _ _); split; try done.
  - intros _. right. by apply list_elem_of_singleton.
  - intros [Hin | Hin]; [|by apply elem_of_nil in Hin].
    rewrite !elem_of_cons in Hin.
    destruct Hin as [Heq | [Heq | [Heq | Hnil]]];
      [..| by apply elem_of_nil in Hnil];
      symmetry in Heq; by apply (print2_head _ _ SLASH) in Heq.
Qed.

(** C8 (amended): for every response to the second probe the diagnostic
    line is printed if and only if the lower-cased content type contains
    [text/html] and the lower-cased body excerpt contains [blocked] or
    [request was blocked].  Given that [str.lower] lower-cases ASCII text in
    place, a [text/html] response whose body excerpt (not merely its body)
    contains [Request was blocked] triggers it, and an [application/json]
    response does not. *)
Theorem waf_diagnostic (r : Response) :
  let ct := default [] (content_type r) in
  let body_head := summarize_body (text r) in
  (Print MSG_WAF ∈ chat_report lower r ↔
     contains (py "text/html") (lower ct) = true
     ∧ (contains (py "blocked") (lower body_head) = true
        ∨ contains (py "request was blocked") (lower body_head) = true))
  ∧ ((∀ s, is_ascii s = true → lower s = lower_ascii s) →
     (∀ a s b, is_ascii s = true →
               ∃ a' b', lower (a ++ s ++ b) = a' ++ lower_ascii s ++ b') →
     (contains (py "text/html") (lower ct) = true →
      contains (py "Request was blocked") body_head = true →
      Print MSG_WAF ∈ chat_report lower r)
     ∧ (content_type r = Some (py "application/json") →
        Print MSG_WAF ∉ chat_report lower r)).
Proof.
  intros ct body_head.
  assert (Hiff : Print MSG_WAF ∈ chat_report lower r ↔
     contains (py "text/html") (lower ct) = true
     ∧ (contains (py "blocked") (lower body_head) = true
        ∨ contains (py "request was blocked") (lower body_head) = true)).
  { rewrite chat_report_waf. unfold looks_blocked. fold ct body_head.
    by rewrite andb_true_iff, orb_true_iff. }
  split; [exact Hiff|]. intros Hascii Hsegment. split.
  - intros Hct Hbody. apply Hiff. split; [done|]. right.
    apply contains_spec in Hbody as (a & b & Hab).
    destruct (Hsegment a (py "Request was blocked") b) as (a' & b' & Hlow);
      [by_compute|].
    rewrite Hab, Hlow. apply contains_app_r, contains_app_l. by_compute.
  - intros Hjson Hin. apply Hiff in Hin as [Hct _]. subst ct.
    rewrite Hjson in Hct. simpl in Hct.
    rewrite Hascii in Hct by by_compute. revert Hct. by_compute.
Qed.

End BlockPage.

Lemma lower_ascii_app (s t : pystr) :
  lower_ascii (s ++ t) = lower_ascii s ++ lower_ascii t.
Proof. apply map_app. Qed.

(** C8: the specification's example, through the theorem: the body is
    [Request was blocked] and the content type [text/html]. *)
Lemma waf_diagnostic_example :
  Print MSG_WAF
    ∈ chat_report lower_ascii (html_response (py "Request was blocked")).
Proof.
  destruct (waf_diagnostic lower_ascii
              (html_response (py "Request was blocked")))
    as (_ & Hexamples).
  destruct Hexamples as [Hhtml _].
  - reflexivity.
  - intros a s b _. exists (lower_ascii a), (lower_ascii b).
    by rewrite !lower_ascii_app.
  - apply Hhtml; by_compute.
Defined.

(** C8 as stated fails: the body contains [Request was blocked], but past
    the 400 characters of the excerpt, and no diagnostic is printed. *)
Lemma waf_diagnostic_misses_late_text :
  let body := replicate 400 120 ++ py "Request was blocked" in
  let r := html_response body in
  contains (py "Request was blocked") body = true
  ∧ summarize_body body = replicate 400 120 ++ py "..."
  ∧ Print MSG_WAF ∉ chat_report lower_ascii r.
Proof.
  intros body r. split_and!; [by_compute ..|].
  rewrite chat_report_waf. by_compute.
Qed.

(** ** The diagnostic line in a whole run *)

Lemma waf_line_distinct :
  MSG_WAF ≠ MSG_NO_BASE_URL ∧ MSG_WAF ≠ MSG_NO_API_KEY
  ∧ MSG_WAF ≠ MSG_NO_MODEL.
Proof. by_compute. Qed.

Section WholeRun.

Context (json_loads : pystr → Json.loads_result).
Context (literal_eval : pystr → pyvalue + pystr).
Context (lower : pystr → pystr).

Lemma key_prompt_not_waf (env : gmap pystr pystr) (a : Args) :
  Print MSG_WAF ∉ key_prompt env a.
Proof.
  unfold key_prompt. destruct (prompts_for_key env a).
  - by intros ?%list_elem_of_singleton.
  - apply not_elem_of_nil.
Qed.

Lemma models_probe_not_waf (w : World) (base_url : pystr)
    (headers : gmap pystr pystr) :
  Print MSG_WAF ∉ models_probe w base_url headers.
Proof.
  unfold models_probe. intros [Heq | Hin]%elem_of_cons; [done|].
  destruct (http_get w _ headers); set_unfold; destruct_or!; try done;
    symmetry in Hin; by apply (print2_head _ _ SLASH) in Hin.
Qed.

Lemma chat_probe_waf (w : World) (base_url model : pystr)
    (headers : gmap pystr pystr) :
  Print MSG_WAF ∈ chat_probe lower w base_url model headers ↔
  model ≠ []
  ∧ ∃ r, http_post w (base_url ++ py "/chat/completions") headers
           (chat_payload model) = inl r
         ∧ Print MSG_WAF ∈ chat_report lower r.
Proof.
  unfold chat_probe. destruct model as [|c model]; cbn [is_empty].
  - split; [|by intros [? _]].
    intros Heq%list_elem_of_singleton.
    destruct waf_line_distinct as (_ & _ & Hne). exfalso. apply Hne. congruence.
  - rewrite elem_of_cons.
    destruct (http_post w _ headers _) as [r | e]; split.
    + intros [Heq | Hin]; [done|]. split; [done|]. by exists r.
    + intros (_ & r' & [= <-] & Hin). by right.
    + intros [Heq | Hin]; [done|]. apply list_elem_of_singleton in Hin.
      symmetry in Hin. by apply (print2_head _ _ SLASH) in Hin.
    + by intros (_ & r' & [=] & _).
Qed.

(** In a whole run the diagnostic line is printed exactly when the env file
    loads, the configuration is complete, the client is created, a model is
    named, the second request gets a response, and the heuristic fires on
    it. *)
Lemma main_prints_waf (w : World) (a : Args) :
  let env := loaded_env w a in
  let base_url := resolve_base_url env a in
  let model := resolve_model env a in
  let api_key := resolve_api_key w env a in
  Print MSG_WAF ∈ (main json_loads literal_eval lower w a).1 ↔
  ∃ extra r,
    load_error w a = None
    ∧ extra_headers_of json_loads literal_eval env a = Ok extra
    ∧ base_url ≠ [] ∧ api_key ≠ [] ∧ model ≠ []
    ∧ http_client w (final_headers extra api_key) = None
    ∧ http_post w (base_url ++ py "/chat/completions")
        (final_headers extra api_key) (chat_payload model) = inl r
    ∧ looks_blocked lower (default [] (content_type r))
        (summarize_body (text r)) = true.
Proof.
  intros env base_url model api_key. unfold main.
  fold env base_url model api_key.
  pose proof (key_prompt_not_waf env a) as Hprompt.
  destruct (load_error w a) as [err|].
  { split; [by intros ?%elem_of_nil | by intros (? & ? & [=] & _)]. }
  destruct (extra_headers_of json_loads literal_eval env a) as [extra|err].
  - destruct (is_empty base_url) eqn:Hb.
    { apply is_empty_true in Hb. split.
      - simpl. rewrite elem_of_app, list_elem_of_singleton.
        intros [Hin | Heq]; [done|].
        destruct waf_line_distinct as (Hne & _ & _). exfalso. apply Hne.
        congruence.
      - by intros (? & ? & _ & _ & ? & _). }
    destruct (is_empty api_key) eqn:Hk.
    { apply is_empty_true in Hk. split.
      - simpl. rewrite elem_of_app, list_elem_of_singleton.
        intros [Hin | Heq]; [done|].
        destruct waf_line_distinct as (_ & Hne & _). exfalso. apply Hne.
        congruence.
      - by intros (? & ? & _ & _ & _ & ? & _). }
    apply is_empty_false in Hb, Hk. cbv zeta.
    destruct (http_client w (final_headers extra api_key)) as [err|] eqn:Hc;
      cbn [fst].
    { split.
      - rewrite elem_of_app. intros [Hin | Hin]; [done|].
        set_unfold. by destruct_or!.
      - intros (extra' & r & _ & [= <-] & _ & _ & _ & Hnone & _).
        congruence. }
    rewrite !elem_of_app, chat_probe_waf. split.
    + intros [Hin | [Hin | [Hin | (Hm & r & Hpost & Hin)]]].
      * done.
      * set_unfold. by destruct_or!.
      * by apply models_probe_not_waf in Hin.
      * exists extra, r. split_and!; try done. by apply chat_report_waf.
    + intros (extra' & r & _ & [= <-] & _ & _ & Hm & _ & Hpost & Hblocked).
      do 3 right. split; [done|]. exists r. split; [done|].
      by apply chat_report_waf.
  - split.
    + simpl. by intros Hin.
    + by intros (? & ? & _ & [=] & _).
Qed.

End WholeRun.

(** ** Facts about [summarize_body] *)

Lemma has_char_false_app (c : N) (s t : pystr) :
  has_char c (s ++ t) = false ↔ has_char c s = false ∧ has_char c t = false.
Proof. rewrite has_char_app. apply orb_false_iff. Qed.

Lemma strip_with_no_char (p : N → bool) (c : N) (s : pystr) :
  has_char c s = false → has_char c (strip_with p s) = false.
Proof.
  destruct (strip_with_spec p s) as (l & r & Heq & _).
  rewrite Heq at 1. rewrite !has_char_false_app. tauto.
Qed.

Lemma take_no_char (c : N) (n : nat) (s : pystr) :
  has_char c s = false → has_char c (take n s) = false.
Proof.
  rewrite <- (take_drop n s) at 1. rewrite has_char_false_app. tauto.
Qed.

Lemma replace_char_no_char (a b : N) (s : pystr) :
  a ≠ b → has_char a (replace_char a b s) = false.
Proof.
  intros Hab. induction s as [|x s IH]; [done|]. simpl. rewrite IH.
  destruct (x =? a) eqn:Hx.
  - apply N.eqb_neq in Hab. by rewrite Hab.
  - rewrite N.eqb_sym. by rewrite Hx.
Qed.

(** What is left after stripping neither starts nor ends with a stripped
    character. *)
Lemma strip_with_ends (p : N → bool) (s : pystr) :
  match strip_with p s with
  | [] => True
  | c :: _ => p c = false
  end
  ∧ match last (strip_with p s) with
    | None => True
    | Some c => p c = false
    end.
Proof.
  unfold strip_with, rstrip_with, lstrip_with.
  set (d := drop_while p s).
  pose proof (drop_while_head p s) as Hd. fold d in Hd.
  pose proof (drop_while_head p (rev d)) as Hr.
  destruct (drop_while_spec p (rev d)) as (l & Heq & _).
  set (t := drop_while p (rev d)) in *.
  split.
  - destruct (rev t) as [|c u] eqn:Hu; [done|].
    assert (Hrev : d = rev t ++ rev l).
    { rewrite <- rev_app_distr, <- Heq. by rewrite rev_involutive. }
    rewrite Hu in Hrev. rewrite Hrev in Hd. exact Hd.
  - rewrite <- (rev_involutive t) in Hr.
    destruct (rev t) as [|c u] using rev_ind; [done|].
    rewrite last_snoc. rewrite rev_app_distr in Hr. exact Hr.
Qed.

(** C9 (amended): the excerpt is the body with every line feed replaced by
    a space and the whitespace at both ends removed (runs of whitespace
    inside are kept as they are); it is cut to 400 characters with the
    ellipsis marker appended when, and only when, that text is longer than
    400 characters, and is that text otherwise. *)
Theorem summarize_body_excerpt (text : pystr) :
  let flat := strip (replace_char LF SPACE text) in
  ((length flat ≤ 400)%nat → summarize_body text = flat)
  ∧ ((400 < length flat)%nat →
     summarize_body text = take 400 flat ++ py "..."
     ∧ length (summarize_body text) = 403%nat)
  ∧ (summarize_body text = take 400 flat ++ py "..." ↔ (400 < length flat)%nat)
  ∧ has_char LF (summarize_body text) = false
  ∧ (∃ l r, replace_char LF SPACE text = l ++ flat ++ r
            ∧ forallb isspace l = true ∧ forallb isspace r = true)
  ∧ match flat with [] => True | c :: _ => isspace c = false end
  ∧ match last flat with None => True | Some c => isspace c = false end.
Proof.
  intros flat. unfold summarize_body, summarize_body_limit. fold flat.
  assert (Hlong : (400 < length flat)%nat →
            length (take 400 flat ++ py "...") = 403%nat).
  { intros Hlen. rewrite length_app, length_take.
    change (length (py "...")) with 3%nat. lia. }
  assert (Hflat : has_char LF flat = false).
  { apply strip_with_no_char, replace_char_no_char. by_compute. }
  split_and!.
  - intros Hlen. destruct (Nat.ltb_spec 400 (length flat)); [lia | done].
  - intros Hlen. destruct (Nat.ltb_spec 400 (length flat)); [|lia]. auto.
  - destruct (Nat.ltb_spec 400 (length flat)) as [Hlen | Hlen]; [done|].
    split; [|lia]. intros Heq. apply (f_equal length) in Heq.
    rewrite length_app, length_take in Heq.
    change (length (py "...")) with 3%nat in Heq. lia.
  - destruct (400 <? length flat)%nat; [|done].
    apply has_char_false_app. split; [by apply take_no_char | by_compute].
  - apply strip_with_spec.
  - apply (strip_with_ends isspace).
  - apply (strip_with_ends isspace).
Qed.

(** C9: a body of 401 letters is cut to 400 and marked. *)
Lemma summarize_body_excerpt_example :
  summarize_body (replicate 401 120) = replicate 400 120 ++ py "...".
Proof.
  destruct (summarize_body_excerpt (replicate 401 120)) as (_ & Hlong & _).
  destruct Hlong as [Heq _]; [vm_compute; lia|].
  rewrite Heq. by_compute.
Defined.

(** C9 as stated fails: whitespace is not collapsed.  Two spaces between
    two letters stay two spaces. *)
Lemma summarize_body_keeps_runs :
  let text := py "a  b" in
  whitespace_collapsed text = py "a b"
  ∧ summarize_body text = py "a  b"
  ∧ summarize_body text ≠ truncated 400 (whitespace_collapsed text).
Proof. by_compute. Qed.

(** ** The JSON path of [parse_headers] *)

Section JsonPath.

Context (json_loads : pystr → Json.loads_result).
Context (literal_eval : pystr → pyvalue + pystr).

(** When [json.loads] returns a value, only the final check is run. *)
Lemma parse_headers_json_value (raw : pystr) (data : pyvalue) :
  raw ≠ [] → json_loads raw = Json.Value data →
  parse_headers json_loads literal_eval (Some raw) = validate data.
Proof.
  intros Hne Hjson. unfold parse_headers.
  destruct raw as [|c raw']; [done|]. by rewrite Hjson.
Qed.

(** C10 (amended): a non-empty input on which [json.loads] returns a value
    that is not an object whose keys and values are all strings gets the
    error of the final check, whatever the literal evaluator would have
    said: neither the brace-list nor the literal strategy is tried.  Nor
    are they when [json.loads] raises something else than
    [JSONDecodeError], as it does on valid JSON beyond its limits: that
    exception ends [parse_headers].  This holds of every decoder. *)
Theorem parse_headers_valid_json_not_mapping (raw : pystr) :
  raw ≠ [] →
  (∀ data, json_loads raw = Json.Value data →
           is_str_mapping data = false →
           parse_headers json_loads literal_eval (Some raw)
           = Raise (ValueError MSG_MAPPING))
  ∧ (∀ e, json_loads raw = Json.Raises e →
          parse_headers json_loads literal_eval (Some raw) = Raise e).
Proof.
  intros Hne. split.
  - intros data Hjson Hdata.
    rewrite (parse_headers_json_value raw data) by done.
    by apply validate_refuses.
  - intros e Hjson. unfold parse_headers.
    destruct raw as [|c raw']; [done|]. by rewrite Hjson.
Qed.

End JsonPath.

Lemma loads_value_nonempty (room : nat) (raw : pystr) :
  Json.loads_within room raw ≠ Json.JSONDecodeError → raw ≠ [].
Proof. by intros Hjson ->. Qed.

(** C10: the four examples of the claim, through the theorem. *)
Lemma parse_headers_valid_json_not_mapping_examples :
  let refused raw :=
    parse_headers Json.loads Literal.eval (Some raw)
    = Raise (ValueError MSG_MAPPING) in
  refused (py "{" ++ quoted "X" ++ py ": 1}")
  ∧ refused (py "[1,2]")
  ∧ refused (quoted "abc")
  ∧ refused (py "123").
Proof.
  intros refused. subst refused. cbv beta.
  pose proof (parse_headers_valid_json_not_mapping Json.loads Literal.eval)
    as Hrefused.
  split_and!.
  - destruct (Hrefused (py "{" ++ quoted "X" ++ py ": 1}")) as [Hvalue _];
      [by_compute|].
    apply (Hvalue (PyDict [(PyStr (py "X"), PyInt 1)])); by_compute.
  - destruct (Hrefused (py "[1,2]")) as [Hvalue _]; [by_compute|].
    apply (Hvalue (PyList [PyInt 1; PyInt 2])); by_compute.
  - destruct (Hrefused (quoted "abc")) as [Hvalue _]; [by_compute|].
    apply (Hvalue (PyStr (py "abc"))); by_compute.
  - destruct (Hrefused (py "123")) as [Hvalue _]; [by_compute|].
    apply (Hvalue (PyInt 123)); by_compute.
Defined.

(** C10 as stated fails: an integer of 5000 digits is valid JSON and is not
    an object, yet [parse_headers] does not end with the error of the final
    check: the conversion of the digits raises a [ValueError] of its own,
    which line 31 does not catch.  So does a [RecursionError]: 2000 arrays
    one inside the other are valid JSON, which a decoder with room for them
    reads. *)
Lemma parse_headers_json_limits :
  let digits := replicate 5000 49 in
  let arrays := replicate 2000 91 ++ replicate 2000 93 in
  (forallb Json.is_digit digits = true
   ∧ parse_headers Json.loads Literal.eval (Some digits)
     = Raise (ValueError (Json.int_limit_msg 5000))
   ∧ Json.int_limit_msg 5000 ≠ MSG_MAPPING)
  ∧ (Json.loads_within 2000 arrays
     = Json.Value (Nat.iter 1999 (λ v, PyList [v]) (PyList []))
     ∧ parse_headers Json.loads Literal.eval (Some arrays)
       = Raise (RecursionError Json.MSG_DEEP_ARRAY)).
Proof. by_compute. Qed.

(** ** The JSON round trip *)

Module JsonFacts.
Import Json.

Lemma small_cases (P : N → Prop) :
  (∀ c, In c (map N.of_nat (seq 0 32)) → P c) → ∀ c, c < 32 → P c.
Proof.
  intros Hall c Hc. apply Hall.
  rewrite <- (N2Nat.id c). apply in_map, in_seq. lia.
Qed.

Lemma hexval_hexdigit (d : N) : d < 16 → hexval (hexdigit d) = Some d.
Proof.
  intros Hd. assert (Hd' : d < 32) by lia. revert d Hd' Hd.
  apply (small_cases (λ d, d < 16 → hexval (hexdigit d) = Some d)).
  intros d Hin. simpl in Hin.
  repeat (destruct Hin as [<- | Hin]; [by intros; first [reflexivity | lia]|]).
  done.
Qed.

Lemma is_high_surrogate_spec (u : N) :
  is_high_surrogate u = true ↔ 55296 ≤ u ≤ 56319.
Proof. unfold is_high_surrogate. rewrite andb_true_iff, !N.leb_le. lia. Qed.

Lemma is_low_surrogate_spec (u : N) :
  is_low_surrogate u = true ↔ 56320 ≤ u ≤ 57343.
Proof. unfold is_low_surrogate. rewrite andb_true_iff, !N.leb_le. lia. Qed.

Lemma is_scalar_spec (c : N) :
  is_scalar c = true ↔ c < 55296 ∨ (57344 ≤ c ∧ c < 1114112).
Proof.
  unfold is_scalar.
  rewrite orb_true_iff, andb_true_iff, !N.ltb_lt, N.leb_le. lia.
Qed.

(** Four hexadecimal digits are read back as the number they write. *)
Lemma hex4_digits (u : N) (tail : pystr) :
  u < 65536 →
  ∃ h1 h2 h3 h4, hex_digits4 u ++ tail = h1 :: h2 :: h3 :: h4 :: tail
                 ∧ hex4 h1 h2 h3 h4 = Some u.
Proof.
  intros Hu. eexists _, _, _, _. split; [reflexivity|].
  unfold hex4. rewrite !hexval_hexdigit;
    [|zify; Z.to_euclidean_division_equations; lia ..].
  f_equal. zify; Z.to_euclidean_division_equations; lia.
Qed.

(** A basic-plane escape that is no high surrogate is read back alone. *)
Lemma scanstring_u (u : N) (tail : pystr) :
  u < 65536 → is_high_surrogate u = false →
  scanstring (92 :: 117 :: hex_digits4 u ++ tail) = emit u (scanstring tail).
Proof.
  intros Hu Hhigh.
  destruct (hex4_digits u tail Hu) as (h1 & h2 & h3 & h4 & -> & Hhex).
  change (scanstring (92 :: 117 :: h1 :: h2 :: h3 :: h4 :: tail)) with
    (match hex4 h1 h2 h3 h4 with
     | None => None
     | Some uni =>
       if is_high_surrogate uni then
         match tail with
         | b :: u' :: g1 :: g2 :: g3 :: g4 :: r3 =>
           if (b =? BACKSLASH) && (u' =? 117) then
             match hex4 g1 g2 g3 g4 with
             | None => None
             | Some uni2 =>
               if is_low_surrogate uni2
               then emit (join_surrogates uni uni2) (scanstring r3)
               else emit uni (scanstring tail)
             end
           else emit uni (scanstring tail)
         | _ => emit uni (scanstring tail)
         end
       else emit uni (scanstring tail)
     end).
  by rewrite Hhex, Hhigh.
Qed.

(** A surrogate pair of escapes is read back as one character. *)
Lemma scanstring_pair (hi lo : N) (tail : pystr) :
  is_high_surrogate hi = true → is_low_surrogate lo = true →
  scanstring (92 :: 117 :: hex_digits4 hi ++ 92 :: 117 :: hex_digits4 lo ++ tail)
  = emit (join_surrogates hi lo) (scanstring tail).
Proof.
  intros Hhi Hlo.
  assert (hi < 65536 ∧ lo < 65536) as [Hhi' Hlo'].
  { apply is_high_surrogate_spec in Hhi. apply is_low_surrogate_spec in Hlo.
    lia. }
  destruct (hex4_digits hi (92 :: 117 :: hex_digits4 lo ++ tail) Hhi')
    as (h1 & h2 & h3 & h4 & -> & Hhex).
  destruct (hex4_digits lo tail Hlo') as (g1 & g2 & g3 & g4 & -> & Hhex').
  change (scanstring (92 :: 117 :: h1 :: h2 :: h3 :: h4
                      :: 92 :: 117 :: g1 :: g2 :: g3 :: g4 :: tail)) with
    (match hex4 h1 h2 h3 h4 with
     | None => None
     | Some uni =>
       if is_high_surrogate uni then
         match hex4 g1 g2 g3 g4 with
         | None => None
         | Some uni2 =>
           if is_low_surrogate uni2
           then emit (join_surrogates uni uni2) (scanstring tail)
           else emit uni
                  (scanstring (92 :: 117 :: g1 :: g2 :: g3 :: g4 :: tail))
         end
       else emit uni (scanstring (92 :: 117 :: g1 :: g2 :: g3 :: g4 :: tail))
     end).
  by rewrite Hhex, Hhi, Hhex', Hlo.
Qed.

(** A character that needs no escape is read back as it is. *)
Lemma scanstring_plain (c : N) (tail : pystr) :
  32 ≤ c → c ≠ 34 → c ≠ 92 →
  scanstring (c :: tail) = emit c (scanstring tail).
Proof.
  intros Hc H34 H92. simpl. unfold DQUOTE, BACKSLASH.
  destruct (N.eqb_spec c 34); [done|]. destruct (N.eqb_spec c 92); [done|].
  by destruct (N.ltb_spec c 32); [lia|].
Qed.

(** The escapes both modes share are read back. *)
Lemma scanstring_escape_common (c : N) (e tail : pystr) :
  escape_common c = Some e →
  scanstring (e ++ tail) = emit c (scanstring tail).
Proof.
  destruct (N.ltb_spec c 32) as [Hsmall | Hbig].
  - revert c Hsmall e.
    apply (small_cases (λ c, ∀ e, escape_common c = Some e →
             scanstring (e ++ tail) = emit c (scanstring tail))).
    intros c Hin. simpl in Hin.
    repeat (destruct Hin as [<- | Hin]; [by intros e [= <-]|]). done.
  - unfold escape_common.
    destruct (N.eqb_spec c 34) as [-> | H34]; [by intros [= <-]|].
    destruct (N.eqb_spec c 92) as [-> | H92]; [by intros [= <-]|].
    destruct (N.eqb_spec c 10); [lia|]. destruct (N.eqb_spec c 13); [lia|].
    destruct (N.eqb_spec c 9); [lia|]. destruct (N.eqb_spec c 8); [lia|].
    destruct (N.eqb_spec c 12); [lia|].
    by destruct (N.ltb_spec c 32); [lia|].
Qed.

Lemma escape_common_none (c : N) :
  escape_common c = None → 32 ≤ c ∧ c ≠ 34 ∧ c ≠ 92.
Proof.
  unfold escape_common.
  destruct (N.eqb_spec c 34); [done|]. destruct (N.eqb_spec c 92); [done|].
  destruct (c =? 10); [done|]. destruct (c =? 13); [done|].
  destruct (c =? 9); [done|]. destruct (c =? 8); [done|].
  destruct (c =? 12); [done|].
  by destruct (N.ltb_spec c 32).
Qed.

(** The decoder reads back one character written without [ensure_ascii]. *)
Lemma scanstring_escape_char (c : N) (tail : pystr) :
  scanstring (escape_char c ++ tail) = emit c (scanstring tail).
Proof.
  unfold escape_char. destruct (escape_common c) as [e|] eqn:He.
  - by apply scanstring_escape_common.
  - apply escape_common_none in He as (? & ? & ?). by apply scanstring_plain.
Qed.

(** The decoder reads back one scalar value written with [ensure_ascii]. *)
Lemma scanstring_escape_char_ascii (c : N) (tail : pystr) :
  is_scalar c = true →
  scanstring (escape_char_ascii c ++ tail) = emit c (scanstring tail).
Proof.
  intros Hscalar. unfold escape_char_ascii.
  destruct (escape_common c) as [e|] eqn:He.
  - by apply scanstring_escape_common.
  - apply escape_common_none in He as (? & ? & ?).
    destruct (N.leb_spec c 126); [by apply scanstring_plain|].
    apply is_scalar_spec in Hscalar.
    destruct (N.ltb_spec c 65536).
    + apply scanstring_u; [done|].
      apply not_true_is_false. rewrite is_high_surrogate_spec. lia.
    + cbv zeta.
      change ((92 :: 117 :: hex_digits4 ?hi ++ 92 :: 117 :: hex_digits4 ?lo)
              ++ tail)
        with (92 :: 117 :: hex_digits4 hi ++ 92 :: 117 :: hex_digits4 lo
              ++ tail).
      rewrite scanstring_pair.
      * f_equal. unfold join_surrogates.
        zify; Z.to_euclidean_division_equations; lia.
      * apply is_high_surrogate_spec.
        zify; Z.to_euclidean_division_equations; lia.
      * apply is_low_surrogate_spec.
        zify; Z.to_euclidean_division_equations; lia.
Qed.

(** Setting a key that is not there yet appends the item. *)
Lemma dict_set_fresh (k v : pystr) (l : list (pystr * pystr)) :
  k ∉ l.*1 →
  dict_set k (PyStr v) (str_item <$> l) = str_item <$> (l ++ [(k, v)]).
Proof.
  induction l as [|[k' v'] l IH]; intros Hk; [done|].
  rewrite fmap_cons, not_elem_of_cons in Hk. destruct Hk as [Hne Hk].
  simpl. rewrite decide_False by done. f_equal. by apply IH.
Qed.

(** What follows holds of any way [esc] of writing the characters that
    satisfy [good], as long as the decoder reads them back. *)
Section Writer.

Context (esc : N → pystr) (good : N → bool).
Context (esc_ok : ∀ c tail, good c = true →
           scanstring (esc c ++ tail) = emit c (scanstring tail)).

Definition good_item (kv : pystr * pystr) : Prop :=
  forallb good kv.1 = true ∧ forallb good kv.2 = true.

(** The decoder reads back an encoded string, up to its closing quote. *)
Lemma scanstring_encode (s tail : pystr) :
  forallb good s = true →
  scanstring (flat_map esc s ++ DQUOTE :: tail) = Some (s, tail).
Proof.
  induction s as [|c s IH]; [reflexivity|].
  simpl. intros [Hc Hs]%andb_true_iff.
  rewrite <- app_assoc, esc_ok, IH by done. reflexivity.
Qed.

Lemma encode_item_app (k v tail : pystr) :
  encode_item esc (k, v) ++ tail =
    DQUOTE :: (flat_map esc k
               ++ DQUOTE :: COLON :: SPACE :: DQUOTE
                  :: (flat_map esc v ++ DQUOTE :: tail)).
Proof.
  unfold encode_item, encode_string. simpl.
  rewrite <- !app_assoc. simpl. by rewrite <- !app_assoc.
Qed.

(** One member: the decoder reads key and value and looks at what follows. *)
Lemma members_step (n room : nat) (acc : list (pyvalue * pyvalue))
    (k v tail : pystr) :
  good_item (k, v) →
  members (S (S n)) room acc (encode_item esc (k, v) ++ tail) =
    match skip_ws tail with
    | c :: r =>
      if c =? RBRACE then Scanned (PyDict (dict_set k (PyStr v) acc)) r
      else if c =? COMMA
           then members (S n) room (dict_set k (PyStr v) acc) (skip_ws r)
           else errmsg room
    | [] => errmsg room
    end.
Proof.
  intros [Hk Hv]. simpl in Hk, Hv. rewrite encode_item_app.
  change (members (S (S n)) room acc (DQUOTE :: ?r)) with
    (match scanstring r with
     | Some (key, r1) =>
       match skip_ws r1 with
       | c1 :: r2 =>
         if c1 =? COLON then
           match scan_once (S n) room (skip_ws r2) with
           | Scanned v r3 =>
             let acc' := dict_set key v acc in
             match skip_ws r3 with
             | c2 :: r4 =>
               if c2 =? RBRACE then Scanned (PyDict acc') r4
               else if c2 =? COMMA
               then members (S n) room acc' (skip_ws r4)
               else errmsg room
             | [] => errmsg room
             end
           | Rejected => Rejected
           | Failed e => Failed e
           end
         else errmsg room
       | [] => errmsg room
       end
     | None => errmsg room
     end).
  rewrite scanstring_encode by done.
  change (skip_ws (COLON :: SPACE :: DQUOTE :: ?r))
    with (COLON :: SPACE :: DQUOTE :: r).
  change (COLON =? COLON) with true. cbv iota.
  change (skip_ws (SPACE :: DQUOTE :: ?r)) with (DQUOTE :: r).
  change (scan_once (S n) room (DQUOTE :: ?r)) with
    (match scanstring r with
     | Some (str, r') => Scanned (PyStr str) r'
     | None => errmsg room
     end).
  by rewrite scanstring_encode.
Qed.

Lemma skip_ws_encode_item (kv : pystr * pystr) (tail : pystr) :
  skip_ws (encode_item esc kv ++ tail) = encode_item esc kv ++ tail.
Proof. destruct kv as [k v]. by rewrite encode_item_app. Qed.

Lemma join_length (sep : pystr) (l : list (pystr * pystr)) :
  (length l ≤ length (join sep (encode_item esc <$> l)))%nat.
Proof.
  induction l as [|kv [|kv' l] IH]; [done| |].
  - destruct kv as [k v]. simpl. lia.
  - change (join sep (encode_item esc <$> kv :: kv' :: l))
      with (encode_item esc kv
            ++ sep ++ join sep (encode_item esc <$> kv' :: l)).
    rewrite !length_app. destruct kv as [k v].
    unfold encode_item at 1, encode_string at 1. simpl length in *. lia.
Qed.

(** The decoder reads back the members of an encoded object, in order. *)
Lemma members_encode (l acc : list (pystr * pystr)) (fuel room : nat)
    (tail : pystr) :
  l ≠ [] → Forall good_item l → NoDup (acc ++ l).*1 → (length l < fuel)%nat →
  members fuel room (str_item <$> acc)
    (join [COMMA; SPACE] (encode_item esc <$> l) ++ RBRACE :: tail)
  = Scanned (PyDict (str_item <$> (acc ++ l))) tail.
Proof.
  revert acc fuel.
  induction l as [|[k v] l IH]; intros acc fuel Hne Hgood Hnd Hfuel; [done|].
  destruct fuel as [|[|n]]; [simpl in Hfuel; lia ..|].
  apply Forall_cons in Hgood as [Hkv Hgood].
  assert (Hk : k ∉ acc.*1).
  { rewrite fmap_app in Hnd. apply NoDup_app in Hnd as (_ & Hdis & _).
    intros Hin. apply (Hdis k Hin). rewrite fmap_cons. by left. }
  destruct l as [|kv' l'].
  - change (join [COMMA; SPACE] (encode_item esc <$> [(k, v)]))
      with (encode_item esc (k, v)).
    rewrite members_step by done.
    change (skip_ws (RBRACE :: tail)) with (RBRACE :: tail).
    change (RBRACE =? RBRACE) with true. cbv iota.
    by rewrite dict_set_fresh.
  - change (join [COMMA; SPACE] (encode_item esc <$> (k, v) :: kv' :: l'))
      with (encode_item esc (k, v)
            ++ COMMA :: SPACE
               :: join [COMMA; SPACE] (encode_item esc <$> kv' :: l')).
    rewrite <- app_assoc, members_step by done.
    rewrite <- app_comm_cons.
    change (skip_ws (COMMA :: ?r)) with (COMMA :: r).
    change (COMMA =? RBRACE) with false. change (COMMA =? COMMA) with true.
    cbv iota. rewrite <- app_comm_cons.
    change (skip_ws (SPACE :: ?r)) with (skip_ws r).
    assert (∃ rest,
               join [COMMA; SPACE] (encode_item esc <$> kv' :: l')
               = encode_item esc kv' ++ rest) as [rest Hrest].
    { destruct l' as [|kv'' l'']; [exists []; by rewrite app_nil_r|].
      by eexists. }
    rewrite Hrest, <- app_assoc, skip_ws_encode_item, app_assoc, <- Hrest.
    rewrite dict_set_fresh by done.
    rewrite IH; [|done|done| |simpl in *; lia].
    + by rewrite <- app_assoc.
    + by rewrite <- app_assoc.
Qed.

(** Decoding the encoding of a mapping gives its items back, as soon as
    there is room for one container. *)
Lemma loads_dumps_with (room : nat) (m : gmap pystr pystr) :
  map_Forall (λ k v, forallb good k = true ∧ forallb good v = true) m →
  loads_within (S room) (dumps_with esc m) = Value (py_of_dict m).
Proof.
  intros Hgood%map_Forall_to_list.
  unfold loads_within, dumps_with, py_of_dict.
  pose proof (NoDup_fst_map_to_list m) as Hnd.
  pose proof (join_length [COMMA; SPACE] (map_to_list m)) as Hlen.
  set (l := map_to_list m) in *.
  change (skip_ws (LBRACE :: ?r)) with (LBRACE :: r).
  destruct l as [|kv l'] eqn:Hl; [reflexivity|].
  set (body := join [COMMA; SPACE] (encode_item esc <$> kv :: l')) in *.
  assert (∃ rest, body ++ [RBRACE] = DQUOTE :: rest) as [rest Hrest].
  { subst body. destruct kv as [k v].
    destruct l' as [|kv' l''].
    - change (join [COMMA; SPACE] (encode_item esc <$> [(k, v)]))
        with (encode_item esc (k, v)).
      rewrite encode_item_app. by eexists.
    - change (join [COMMA; SPACE] (encode_item esc <$> (k, v) :: kv' :: l''))
        with (encode_item esc (k, v)
              ++ COMMA :: SPACE
                 :: join [COMMA; SPACE] (encode_item esc <$> kv' :: l'')).
      rewrite <- app_assoc, encode_item_app. by eexists. }
  change (scan_once (S ?n) (S room) (LBRACE :: ?r)) with
    (match skip_ws r with
     | c' :: r' =>
       if c' =? RBRACE then Scanned (PyDict []) r'
       else members n room [] (c' :: r')
     | [] => errmsg room
     end).
  rewrite Hrest.
  change (skip_ws (DQUOTE :: rest)) with (DQUOTE :: rest).
  change (DQUOTE =? RBRACE) with false. cbv iota.
  rewrite <- Hrest.
  rewrite (members_encode (kv :: l') [] _ room []); [done|done| |done|].
  - eapply Forall_impl; [exact Hgood|]. by intros [k v].
  - rewrite !length_cons, length_app. rewrite length_cons in Hlen. simpl. lia.
Qed.

End Writer.

(** [json.loads(json.dumps(m, ensure_ascii=False))] gives [m] back. *)
Lemma loads_dumps_raw (m : gmap pystr pystr) :
  loads (dumps_raw m) = Value (py_of_dict m).
Proof.
  apply (loads_dumps_with escape_char (λ _, true) (λ _ _ _,
           scanstring_escape_char _ _) (pred ROOM)).
  intros k v _. split; by apply forallb_forall.
Qed.

(** [json.loads(json.dumps(m))] gives [m] back when the strings of [m] hold
    no surrogate code point. *)
Lemma loads_dumps (m : gmap pystr pystr) :
  map_Forall (λ k v, scalar_text k = true ∧ scalar_text v = true) m →
  loads (dumps m) = Value (py_of_dict m).
Proof.
  apply (loads_dumps_with escape_char_ascii is_scalar
           scanstring_escape_char_ascii (pred ROOM)).
Qed.

End JsonFacts.

(** ** The fuel of the JSON decoder *)

Module JsonFuel.
Import Json.

Lemma drop_while_length (p : N → bool) (s : pystr) :
  (length (drop_while p s) ≤ length s)%nat.
Proof.
  induction s as [|c s IH]; simpl; [done|]. destruct (p c); simpl; lia.
Qed.

Lemma emit_some (c : N) (o : option (pystr * pystr)) (x r : pystr) :
  emit c o = Some (x, r) → ∃ x', o = Some (x', r) ∧ x = c :: x'.
Proof. destruct o as [[x' r']|]; [|done]. intros [= <- <-]. by exists x'. Qed.

(** Reading a string consumes at least its closing quote. *)
Lemma scanstring_length (s x r : pystr) :
  scanstring s = Some (x, r) → (length r < length s)%nat.
Proof.
  remember (length s) as n eqn:Hn. revert s x r Hn.
  induction n as [n IH] using lt_wf_ind. intros s x r -> Hscan.
  destruct s as [|c r0]; [done|]. simpl in Hscan.
  repeat case_match; simplify_eq; try (simpl; lia);
    match goal with
    | H : emit _ (scanstring ?t) = Some _ |- _ =>
      apply emit_some in H as (x' & H & _);
      eapply IH in H; [| |reflexivity]; simpl in *; lia
    end.
Qed.

Lemma keyword_length (kw : string) (v v' : pyvalue) (s r : pystr) :
  (0 < length (py kw))%nat →
  of_option (keyword kw v s) = Scanned v' r → (length r < length s)%nat.
Proof.
  unfold keyword. intros Hkw. destruct (startswith (py kw) s) eqn:Hstart; [|done].
  intros [= <- <-]. apply startswith_spec in Hstart as [t ->].
  rewrite drop_app_length, length_app. lia.
Qed.

Lemma keyword_not_failed (kw : string) (v : pyvalue) (s : pystr) (e : exn) :
  of_option (keyword kw v s) ≠ Failed e.
Proof. unfold keyword. by destruct (startswith (py kw) s). Qed.

Lemma span_digits_app (s : pystr) :
  s = (span_digits s).1 ++ (span_digits s).2.
Proof.
  induction s as [|c s IH]; [done|]. simpl.
  destruct (is_digit c); [|done].
  destruct (span_digits s) as [ds r]. simpl in *. by rewrite IH at 1.
Qed.

Lemma span_digits_length (s : pystr) :
  (length (span_digits s).2 ≤ length s)%nat.
Proof.
  rewrite (span_digits_app s) at 2. rewrite length_app. lia.
Qed.

(** A number consumes at least one digit. *)
Lemma match_number_length (s r : pystr) (v : pyvalue) :
  match_number s = Scanned v r → (length r < length s)%nat.
Proof.
  unfold match_number.
  set (signed := match s with
                 | c :: r => if c =? 45 then (true, r) else (false, s)
                 | [] => (false, s)
                 end).
  assert (Hsigned : (length signed.2 ≤ length s)%nat).
  { subst signed. destruct s as [|c s']; [done|].
    destruct (c =? 45); simpl; lia. }
  destruct signed as [neg r0]. simpl in Hsigned.
  destruct r0 as [|d r1]; [done|].
  destruct (is_digit d) eqn:Hd; [|done].
  set (int_part := if d =? 48 then ([d], r1) else span_digits (d :: r1)).
  assert (Hint : (length int_part.2 ≤ length r1)%nat).
  { subst int_part. destruct (d =? 48); [done|].
    simpl. rewrite Hd. pose proof (span_digits_length r1).
    by destruct (span_digits r1). }
  destruct int_part as [ipart r2]. simpl in Hint.
  set (frac_part := match r2 with
                    | dot :: f :: r' =>
                      if (dot =? 46) && is_digit f
                      then let '(fd, r'') := span_digits (f :: r') in
                           (dot :: fd, r'')
                      else ([], r2)
                    | _ => ([], r2)
                    end).
  assert (Hfrac : (length frac_part.2 ≤ length r2)%nat).
  { subst frac_part. destruct r2 as [|dot [|f r']]; [done..|].
    destruct ((dot =? 46) && is_digit f); [|done].
    pose proof (span_digits_length (f :: r')).
    destruct (span_digits (f :: r')). simpl in *. lia. }
  destruct frac_part as [frac r3]. simpl in Hfrac.
  set (exp_part := match r3 with
                   | e :: r' =>
                     if (e =? 101) || (e =? 69) then
                       let '(sg, r'') :=
                         match r' with
                         | c :: t =>
                           if (c =? 43) || (c =? 45) then ([c], t) else ([], r')
                         | [] => ([], r')
                         end in
                       let '(ed, r''') := span_digits r'' in
                       if is_empty ed then ([], r3) else (e :: sg ++ ed, r''')
                     else ([], r3)
                   | [] => ([], r3)
                   end).
  assert (Hexp : (length exp_part.2 ≤ length r3)%nat).
  { subst exp_part. destruct r3 as [|e r']; [done|].
    destruct ((e =? 101) || (e =? 69)); [|done].
    set (sign := match r' with
                 | c :: t =>
                   if (c =? 43) || (c =? 45) then ([c], t) else ([], r')
                 | [] => ([], r')
                 end).
    assert (Hsign : (length sign.2 ≤ length r')%nat).
    { subst sign. destruct r' as [|c t]; [done|].
      destruct ((c =? 43) || (c =? 45)); simpl; lia. }
    destruct sign as [sg r'']. simpl in Hsign.
    pose proof (span_digits_length r'').
    destruct (span_digits r'') as [ed r''']. simpl in *.
    destruct (is_empty ed); simpl; lia. }
  destruct exp_part as [exp r4]. simpl in Hexp.
  destruct (is_empty frac && is_empty exp);
    [destruct (MAX_STR_DIGITS <? length ipart)%nat; [done|]|];
    intros [= <- <-]; simpl in *; lia.
Qed.

Lemma errmsg_cases (room : nat) :
  errmsg room = @Rejected pyvalue ∨ ∃ e, errmsg room = @Failed pyvalue e.
Proof. destruct room as [|[|[|room]]]; simpl; eauto. Qed.

(** A string, a keyword or a number consumes input. *)
Lemma scan_atom_length (room : nat) (s r : pystr) (v : pyvalue) :
  scan_atom room s = Scanned v r → (length r < length s)%nat.
Proof.
  unfold scan_atom. destruct s as [|c r0]; [done|].
  destruct (c =? DQUOTE).
  { destruct (scanstring r0) as [[str r']|] eqn:Hstr.
    - intros [= <- <-]. apply scanstring_length in Hstr. simpl. lia.
    - by destruct (errmsg_cases room) as [-> | [e ->]]. }
  repeat (match goal with
          | |- context [if ?b then _ else _] => destruct b
          end; [by apply keyword_length; vm_compute; lia|]).
  apply match_number_length.
Qed.

Lemma skip_ws_length (s : pystr) : (length (skip_ws s) ≤ length s)%nat.
Proof. apply drop_while_length. Qed.

(** Where the decoder builds its error, the fuel plays no part. *)
Ltac errmsg_site room :=
  let e := fresh "e" in
  let Herr := fresh "Herr" in
  let m := fresh "m" in
  let Hm := fresh "Hm" in
  destruct (errmsg_cases room) as [Herr | [e Herr]]; rewrite Herr; [done|];
  intros [|m] Hm; [simpl in *; lia|]; simpl.

(** More fuel changes nothing. *)
Lemma scan_fuel (n : nat) :
  fuel_enough 0 scan_once n
  ∧ fuel_enough 1 (λ n '(room, acc), members n room acc) n
  ∧ fuel_enough 1 (λ n '(room, acc), elements n room acc) n.
Proof.
  induction n as [|n (IHscan & IHmem & IHelem)];
    [split_and!; by intros [] | ].
  split_and!.
  - intros room s. simpl.
    destruct s as [|c r0]; [done|].
    pose proof (skip_ws_length r0) as Hskip.
    destruct (c =? LBRACE) eqn:Hbrace.
    { destruct room as [|room'].
      { intros [|m] Hm; [simpl in Hm; lia|]. simpl. by rewrite Hbrace. }
      destruct (skip_ws r0) as [|c' r'] eqn:Hr0.
      { errmsg_site room'. by rewrite Hbrace, Hr0. }
      destruct (c' =? RBRACE) eqn:Hclose.
      - simpl in *. split; [lia|].
        intros [|m] Hm; [lia|]. simpl. by rewrite Hbrace, Hr0, Hclose.
      - specialize (IHmem (room', []) (c' :: r')). simpl in IHmem.
        destruct (members n room' [] (c' :: r')) as [v r| |e].
        + destruct IHmem as [Hlen Hfuel]. simpl in *. split; [lia|].
          intros [|m] Hm; [lia|]. simpl. rewrite Hbrace, Hr0, Hclose.
          apply Hfuel. lia.
        + done.
        + intros [|m] Hm; [simpl in Hm; lia|]. simpl.
          rewrite Hbrace, Hr0, Hclose. apply IHmem. simpl in *. lia. }
    destruct (c =? 91) eqn:Hbracket.
    { destruct room as [|room'].
      { intros [|m] Hm; [simpl in Hm; lia|]. simpl.
        by rewrite Hbrace, Hbracket. }
      destruct (skip_ws r0) as [|c' r'] eqn:Hr0; [done|].
      destruct (c' =? 93) eqn:Hclose.
      - simpl in *. split; [lia|].
        intros [|m] Hm; [lia|]. simpl.
        by rewrite Hbrace, Hbracket, Hr0, Hclose.
      - specialize (IHelem (room', []) (c' :: r')). simpl in IHelem.
        destruct (elements n room' [] (c' :: r')) as [v r| |e].
        + destruct IHelem as [Hlen Hfuel]. simpl in *. split; [lia|].
          intros [|m] Hm; [lia|]. simpl.
          rewrite Hbrace, Hbracket, Hr0, Hclose. apply Hfuel. lia.
        + done.
        + intros [|m] Hm; [simpl in Hm; lia|]. simpl.
          rewrite Hbrace, Hbracket, Hr0, Hclose. apply IHelem.
          simpl in *. lia. }
    destruct (scan_atom room (c :: r0)) as [v r| |e] eqn:Hatom.
    + pose proof (scan_atom_length _ _ _ _ Hatom) as Hlen. split; [done|].
      intros [|m] Hm; [lia|]. simpl. by rewrite Hbrace, Hbracket.
    + done.
    + intros [|m] Hm; [simpl in Hm; lia|]. simpl.
      by rewrite Hbrace, Hbracket.
  - intros [room acc] s. simpl.
    destruct s as [|q r0]; [errmsg_site room; by rewrite ?Herr|].
    destruct (q =? DQUOTE) eqn:Hq;
      [|errmsg_site room; by rewrite Hq, ?Herr].
    destruct (scanstring r0) as [[key r1]|] eqn:Hkey;
      [|errmsg_site room; by rewrite Hq, Hkey, ?Herr].
    pose proof (scanstring_length _ _ _ Hkey) as Hr1.
    pose proof (skip_ws_length r1) as Hskip1.
    destruct (skip_ws r1) as [|c1 r2] eqn:Hsk1;
      [errmsg_site room; by rewrite Hq, Hkey, Hsk1, ?Herr|].
    destruct (c1 =? COLON) eqn:Hc1;
      [|errmsg_site room; by rewrite Hq, Hkey, Hsk1, Hc1, ?Herr].
    pose proof (skip_ws_length r2) as Hskip2.
    specialize (IHscan room (skip_ws r2)).
    destruct (scan_once n room (skip_ws r2)) as [v' r3| |e] eqn:Hval; [|done|].
    2: { intros [|m] Hm; [simpl in Hm; lia|]. simpl.
         rewrite Hq, Hkey, Hsk1, Hc1, IHscan; [done|]. simpl in *. lia. }
    destruct IHscan as [Hr3 Hfuel3].
    pose proof (skip_ws_length r3) as Hskip3.
    destruct (skip_ws r3) as [|c2 r4] eqn:Hsk3.
    { errmsg_site room.
      rewrite Hq, Hkey, Hsk1, Hc1, Hfuel3 by (simpl in *; lia).
      by rewrite Hsk3, ?Herr. }
    cbv zeta.
    destruct (c2 =? RBRACE) eqn:Hc2.
    + simpl in *. split; [lia|].
      intros [|m] Hm; [lia|]. simpl.
      rewrite Hq, Hkey, Hsk1, Hc1, Hfuel3 by lia.
      by rewrite Hsk3, Hc2.
    + destruct (c2 =? COMMA) eqn:Hc2'.
      2: { errmsg_site room.
           rewrite Hq, Hkey, Hsk1, Hc1, Hfuel3 by (simpl in *; lia).
           by rewrite Hsk3, Hc2, Hc2', ?Herr. }
      pose proof (skip_ws_length r4) as Hskip4.
      specialize (IHmem (room, dict_set key v' acc) (skip_ws r4)).
      simpl in IHmem.
      destruct (members n room (dict_set key v' acc) (skip_ws r4))
        as [v r| |e].
      * destruct IHmem as [Hr Hfuel]. simpl in *. split; [lia|].
        intros [|m] Hm; [lia|]. simpl.
        rewrite Hq, Hkey, Hsk1, Hc1, Hfuel3 by lia.
        rewrite Hsk3, Hc2, Hc2'. apply Hfuel. lia.
      * done.
      * intros [|m] Hm; [simpl in Hm; lia|]. simpl.
        rewrite Hq, Hkey, Hsk1, Hc1, Hfuel3 by (simpl in *; lia).
        rewrite Hsk3, Hc2, Hc2'. apply IHmem. simpl in *. lia.
  - intros [room acc] s. simpl.
    specialize (IHscan room s).
    destruct (scan_once n room s) as [v' r1| |e] eqn:Hval; [|done|].
    2: { intros [|m] Hm; [lia|]. simpl. rewrite IHscan; [done|]. lia. }
    destruct IHscan as [Hr1 Hfuel1].
    pose proof (skip_ws_length r1) as Hskip1.
    destruct (skip_ws r1) as [|c r2] eqn:Hsk1.
    { errmsg_site room. rewrite Hfuel1 by (simpl in *; lia).
      by rewrite Hsk1, ?Herr. }
    destruct (c =? 93) eqn:Hc.
    + simpl in *. split; [lia|].
      intros [|m] Hm; [lia|]. simpl.
      rewrite Hfuel1 by lia. by rewrite Hsk1, Hc.
    + destruct (c =? COMMA) eqn:Hc'.
      2: { errmsg_site room. rewrite Hfuel1 by (simpl in *; lia).
           by rewrite Hsk1, Hc, Hc', ?Herr. }
      pose proof (skip_ws_length r2) as Hskip2.
      specialize (IHelem (room, acc ++ [v']) (skip_ws r2)). simpl in IHelem.
      destruct (elements n room (acc ++ [v']) (skip_ws r2)) as [v r| |e].
      * destruct IHelem as [Hr Hfuel]. simpl in *. split; [lia|].
        intros [|m] Hm; [lia|]. simpl.
        rewrite Hfuel1 by lia. rewrite Hsk1, Hc, Hc'. apply Hfuel. lia.
      * done.
      * intros [|m] Hm; [lia|]. simpl.
        rewrite Hfuel1 by (simpl in *; lia).
        rewrite Hsk1, Hc, Hc'. apply IHelem. simpl in *. lia.
Qed.

(** [loads_within] supplies enough fuel: what any amount of fuel finds, a
    value or an exception, is what [loads_within] finds, so
    [JSONDecodeError] never stands for fuel that ran out. *)
Lemma loads_enough_fuel (n room : nat) (s : pystr) :
  scan_once n room (skip_ws s) ≠ Rejected →
  loads_within room s =
    match scan_once n room (skip_ws s) with
    | Scanned v rest =>
      if is_empty (skip_ws rest) then Value v else JSONDecodeError
    | Rejected => JSONDecodeError
    | Failed e => Raises e
    end.
Proof.
  intros Hscan. destruct (scan_fuel n) as (Hfuel & _ & _).
  specialize (Hfuel room (skip_ws s)). unfold loads_within.
  pose proof (skip_ws_length s).
  destruct (scan_once n room (skip_ws s)) as [v rest| |e]; [|done|].
  - destruct Hfuel as [Hlen Hmore]. rewrite Hmore; [done|]. lia.
  - rewrite Hfuel; [done|]. lia.
Qed.

End JsonFuel.


(** C2: for every mapping of strings to strings, [parse_headers] applied to
    its JSON serialization returns the mapping itself.  This holds of the
    text [json.dumps] writes with [ensure_ascii=False]; of the text it
    writes by default, for strings of Unicode scalar values; and of every
    other text the decoder reads as an object with exactly the items of the
    mapping.  The literal evaluator plays no part. *)
Theorem parse_headers_json_roundtrip
    (literal_eval : pystr → pyvalue + pystr) (m : gmap pystr pystr) :
  parse_headers Json.loads literal_eval (Some (Json.dumps_raw m)) = Ok m
  ∧ (map_Forall (λ k v, Json.scalar_text k = true
                        ∧ Json.scalar_text v = true) m →
     parse_headers Json.loads literal_eval (Some (Json.dumps m)) = Ok m)
  ∧ ∀ raw items,
      Json.loads raw = Json.Value (PyDict items) →
      items ≡ₚ str_item <$> map_to_list m →
      parse_headers Json.loads literal_eval (Some raw) = Ok m.
Proof.
  split_and!.
  - rewrite (parse_headers_json_value _ _ _ (py_of_dict m)).
    + apply validate_py_of_dict.
    + done.
    + apply JsonFacts.loads_dumps_raw.
  - intros Hscalar.
    rewrite (parse_headers_json_value _ _ _ (py_of_dict m)).
    + apply validate_py_of_dict.
    + done.
    + by apply JsonFacts.loads_dumps.
  - intros raw items Hloads Hitems.
    rewrite (parse_headers_json_value _ _ _ (PyDict items)).
    + by apply validate_items.
    + apply (loads_value_nonempty Json.ROOM). unfold Json.loads in Hloads.
      congruence.
    + done.
Qed.

(** C2: the default serialization of a mapping with a non-ASCII value, and
    a serialization written by hand, with its members in another order,
    spaces, and escaped slashes. *)
Lemma parse_headers_json_roundtrip_example :
  parse_headers Json.loads Literal.eval
    (Some (Json.dumps {[ py "X-Name" := py "café 😀" ]}))
  = Ok {[ py "X-Name" := py "café 😀" ]}
  ∧ parse_headers Json.loads Literal.eval
      (Some (py " { " ++ quoted "User-Agent" ++ py " : "
             ++ quoted "Mozilla\/5.0" ++ py " , " ++ quoted "Accept"
             ++ py ":" ++ quoted "application\u002Fjson" ++ py "} "))
    = Ok {[ py "User-Agent" := py "Mozilla/5.0";
            py "Accept" := py "application/json" ]}.
Proof.
  split.
  - apply (proj1 (proj2 (parse_headers_json_roundtrip Literal.eval _))).
    apply map_Forall_singleton. split; by_compute.
  - eapply (proj2 (proj2 (parse_headers_json_roundtrip Literal.eval _))).
    + by_compute.
    + vm_compute. apply perm_swap.
Defined.

(** ** Further facts about Python strings *)

Lemma drop_while_all (p : N → bool) (l s : pystr) :
  forallb p l = true → drop_while p (l ++ s) = drop_while p s.
Proof.
  induction l as [|c l IH]; [done|]. simpl.
  intros [Hc Hl]%andb_true_iff. rewrite Hc. by apply IH.
Qed.

Lemma drop_while_fixed (p : N → bool) (s : pystr) :
  match s with [] => True | c :: _ => p c = false end →
  drop_while p s = s.
Proof. destruct s as [|c s]; [done|]. simpl. by intros ->. Qed.

Lemma forallb_rev (p : N → bool) (l : pystr) :
  forallb p (rev l) = forallb p l.
Proof.
  induction l as [|c l IH]; [done|]. simpl.
  rewrite forallb_app, IH. simpl. rewrite andb_true_r. apply andb_comm.
Qed.

Lemma head_rev (s : pystr) : head (rev s) = last s.
Proof.
  induction s as [|c s IH] using rev_ind; [done|].
  by rewrite rev_app_distr, last_snoc.
Qed.

(** Text that neither starts nor ends with a stripped character is what
    stripping leaves of it, whatever stripped characters surround it. *)
Lemma strip_with_tight (p : N → bool) (l s r : pystr) :
  forallb p l = true → forallb p r = true →
  match s with [] => True | c :: _ => p c = false end →
  match last s with None => True | Some c => p c = false end →
  strip_with p (l ++ s ++ r) = s.
Proof.
  intros Hl Hr Hhead Hlast. unfold strip_with, rstrip_with, lstrip_with.
  rewrite drop_while_all by done.
  destruct s as [|c s].
  - simpl. rewrite <- (app_nil_r r) at 1. rewrite drop_while_all by done.
    done.
  - rewrite (drop_while_fixed p ((c :: s) ++ r)) by done.
    rewrite rev_app_distr, drop_while_all by by rewrite forallb_rev.
    rewrite drop_while_fixed; [apply rev_involutive|].
    pose proof (head_rev (c :: s)) as Hrev.
    destruct (rev (c :: s)) as [|d t]; [done|]. simpl in Hrev.
    by rewrite <- Hrev in Hlast.
Qed.

Lemma strip_with_fixed (p : N → bool) (s : pystr) :
  match s with [] => True | c :: _ => p c = false end →
  match last s with None => True | Some c => p c = false end →
  strip_with p s = s.
Proof.
  intros Hhead Hlast.
  rewrite <- (app_nil_r s) at 1. by apply (strip_with_tight p [] s []).
Qed.

(** Stripping twice is stripping once. *)
Lemma strip_with_idemp (p : N → bool) (s : pystr) :
  strip_with p (strip_with p s) = strip_with p s.
Proof. apply strip_with_fixed; apply strip_with_ends. Qed.

(** Text that stripping leaves alone has no stripped character at its
    ends. *)
Lemma strip_with_fixed_ends (p : N → bool) (s : pystr) :
  strip_with p s = s →
  match s with [] => True | c :: _ => p c = false end
  ∧ match last s with None => True | Some c => p c = false end.
Proof. intros <-. apply strip_with_ends. Qed.

Lemma strip_with_empty (p : N → bool) (s : pystr) :
  strip_with p s = [] ↔ forallb p s = true.
Proof.
  split.
  - intros Hs. destruct (strip_with_spec p s) as (l & r & Heq & Hl & Hr).
    rewrite Hs in Heq. rewrite Heq, forallb_app. simpl in *. by rewrite Hl, Hr.
  - intros Hall. rewrite <- (app_nil_r s).
    by apply (strip_with_tight p s [] []).
Qed.

Lemma forallb_no_char (p : N → bool) (c : N) (s : pystr) :
  p c = false → forallb p s = true → has_char c s = false.
Proof.
  intros Hc. induction s as [|x s IH]; [done|]. simpl.
  intros [Hx Hs]%andb_true_iff. rewrite IH by done.
  destruct (c =? x) eqn:Hcx; [|done]. apply N.eqb_eq in Hcx. congruence.
Qed.

Lemma split1_app (c : N) (k v : pystr) :
  has_char c k = false → split1 c (k ++ c :: v) = (k, v).
Proof.
  induction k as [|x k IH]; simpl.
  - by rewrite N.eqb_refl.
  - rewrite N.eqb_sym. intros [Hx Hk]%orb_false_iff. rewrite Hx, IH by done.
    done.
Qed.

Lemma startswith_head (c : N) (s : pystr) :
  startswith [c] s = true ↔ head s = Some c.
Proof.
  destruct s as [|x s]; simpl; [done|].
  rewrite andb_true_r, N.eqb_eq. split; [by intros -> | by intros [= ->]].
Qed.

Lemma head_app_nonempty (s t : pystr) : s ≠ [] → head (s ++ t) = head s.
Proof. by destruct s. Qed.

Lemma last_app_nonempty (s t : pystr) : t ≠ [] → last (s ++ t) = last t.
Proof.
  destruct t as [|c t] using rev_ind; [done|]. intros _.
  by rewrite app_assoc, !last_snoc.
Qed.

(** ** Further facts about [load_env_file] *)

Lemma load_env_line_entry (env : gmap pystr pystr) (line : pystr) :
  load_env_line env line =
    match env_entry line with
    | Some (k, v) => environ_setdefault k v env
    | None => Ok env
    end.
Proof.
  unfold load_env_line, env_entry.
  destruct (_ || _ || _); [done|].
  by destruct (split1 EQUALS (strip line)) as [key value].
Qed.

(** What [os.environ.setdefault] returns when it returns: the mapping as it
    was when the name is set, and with the new entry, which the operating
    system has accepted, when not. *)
Lemma environ_setdefault_ok (k v : pystr) (d d' : gmap pystr pystr) :
  environ_setdefault k v d = Ok d' →
  forallb fs_encodable k = true
  ∧ ((is_Some (d !! k) ∧ d' = d)
     ∨ (d !! k = None ∧ d' = <[k := v]> d ∧ env_accepts k v = true)).
Proof.
  unfold environ_setdefault, env_accepts.
  destruct (forallb fs_encodable k); [|done]. simpl.
  destruct (d !! k) as [v'|] eqn:Hk.
  { intros [= <-]. split; [done|]. left. by split; [eexists|]. }
  destruct (forallb fs_encodable v); [|done]. simpl.
  destruct (has_char NUL k); [done|]. destruct (has_char NUL v); [done|].
  destruct (has_char EQUALS k); [done|]. destruct (is_empty k); [done|].
  simpl. intros [= <-]. split; [done|]. by right.
Qed.

Lemma environ_setdefault_accepts (k v : pystr) (d : gmap pystr pystr) :
  d !! k = None → env_accepts k v = true →
  environ_setdefault k v d = Ok (<[k := v]> d).
Proof.
  unfold environ_setdefault, env_accepts. intros ->.
  rewrite !andb_true_iff, !negb_true_iff.
  by intros (((((-> & ->) & ->) & ->) & ->) & ->).
Qed.

Lemma environ_setdefault_union (k v : pystr) (d d' : gmap pystr pystr) :
  environ_setdefault k v d = Ok d' → d' = d ∪ {[ k := v ]}.
Proof.
  intros (_ & [[[v' Hk] ->] | (Hk & -> & _)])%environ_setdefault_ok.
  - apply map_eq. intros i. rewrite lookup_union.
    destruct (decide (i = k)) as [->|Hne].
    + by rewrite Hk, lookup_singleton_eq.
    + rewrite lookup_singleton_ne by done. by destruct (d !! i).
  - by apply insert_union_singleton_r.
Qed.

(** The loop over the lines, when it ends without an exception: the
    environment, extended by the entries of the lines; the union prefers
    the environment, and the list of entries its first entry for a name. *)
Lemma load_env_lines_union (lines : list pystr) (env env' : gmap pystr pystr) :
  load_env_lines lines env = (env', None) →
  env' = env ∪ list_to_map (omap env_entry lines).
Proof.
  revert env. induction lines as [|line lines IH]; intros env; simpl.
  - intros [= <-]. by rewrite (right_id_L ∅ (∪)).
  - rewrite load_env_line_entry.
    destruct (env_entry line) as [[k v]|]; [|apply IH]. simpl.
    destruct (environ_setdefault k v env) as [env1|e] eqn:Hset; [|done].
    intros ->%IH. apply environ_setdefault_union in Hset as ->.
    rewrite <- (assoc_L (∪)). f_equal.
    symmetry. apply insert_union_singleton_l.
Qed.

Lemma list_to_map_first_value (k : pystr) (entries : list (pystr * pystr)) :
  (list_to_map entries : gmap pystr pystr) !! k = first_value k entries.
Proof.
  unfold first_value. induction entries as [|[k' v'] entries IH]; [done|].
  simpl. destruct (decide (k' = k)) as [->|Hne].
  - by rewrite lookup_insert_eq, bool_decide_eq_true_2.
  - by rewrite lookup_insert_ne, bool_decide_eq_false_2.
Qed.

(** X1: when [load_env_file] ends without an exception, a variable that was
    set has kept its value, and a variable that was not set has the value of
    the first line of the file that defines it, and is unset when no line
    does. *)
Theorem load_env_file_first_wins (text : pystr) (env env' : gmap pystr pystr)
    (k : pystr) :
  load_env_file (Some text) env = (env', None) →
  env' !! k =
    match env !! k with
    | Some v => Some v
    | None => first_value k (env_entries text)
    end.
Proof.
  unfold load_env_file, env_entries. intros ->%load_env_lines_union.
  rewrite lookup_union, list_to_map_first_value.
  destruct (env !! k); [|by rewrite (left_id_L None _)].
  by destruct (first_value k _).
Qed.

(** X1 on a file that defines [A] twice and [B], which is set already. *)
Lemma load_env_file_first_wins_example :
  let text := py "A=1" ++ [LF] ++ py "A=2" ++ [LF] ++ py "B=3" in
  let env : gmap pystr pystr := {[ py "B" := py "0" ]} in
  let env' := (load_env_file (Some text) env).1 in
  load_env_file (Some text) env = (env', None)
  ∧ env' !! py "A" = Some (py "1") ∧ env' !! py "B" = Some (py "0").
Proof.
  intros text env env'.
  assert (Hloaded : load_env_file (Some text) env = (env', None))
    by by_compute.
  split; [done|].
  split; (etrans; [by apply (load_env_file_first_wins text env env')|]);
    by_compute.
Defined.

(** A line that has done its work does nothing more in an environment that
    holds what it left. *)
Lemma load_env_line_again (env env1 env2 : gmap pystr pystr) (line : pystr) :
  load_env_line env line = Ok env1 → env1 ⊆ env2 →
  load_env_line env2 line = Ok env2.
Proof.
  rewrite !load_env_line_entry.
  destruct (env_entry line) as [[k v]|]; [|done].
  intros (Hk & Hset)%environ_setdefault_ok Hsub.
  assert (is_Some (env1 !! k)) as [v1 Hv1].
  { destruct Hset as [[Hin ->] | (_ & -> & _)]; [done|].
    rewrite lookup_insert_eq. by eexists. }
  unfold environ_setdefault. rewrite Hk. simpl.
  by rewrite (lookup_weaken _ _ _ _ Hv1 Hsub).
Qed.

(** X2: loading the same file a second time changes nothing: it leaves the
    environment the first loading left, and ends as the first did. *)
Theorem load_env_file_idempotent (file : option pystr)
    (env : gmap pystr pystr) :
  load_env_file file (load_env_file file env).1 = load_env_file file env.
Proof.
  destruct file as [text|]; [|done]. unfold load_env_file.
  generalize (splitlines text). intros lines.
  revert env.
  induction lines as [|line lines IH]; intros env; [done|]. simpl.
  destruct (load_env_line env line) as [env1|e] eqn:Hline.
  - pose proof (load_env_lines_subseteq lines env1) as Hsub.
    simpl. rewrite (load_env_line_again _ _ _ _ Hline Hsub). apply IH.
  - simpl. by rewrite Hline.
Qed.

(** X3: a file made of blank lines, comment lines and lines without an
    equals sign leaves the environment as it is, and raises nothing. *)
Theorem load_env_file_ignores (text : pystr) (env : gmap pystr pystr) :
  Forall (λ line, strip line = [] ∨ head (strip line) = Some HASH
                  ∨ has_char EQUALS line = false) (splitlines text) →
  load_env_file (Some text) env = (env, None).
Proof.
  unfold load_env_file. generalize (splitlines text).
  intros lines Hlines. induction Hlines as [|line lines Hline _ IH]; [done|].
  simpl. rewrite load_env_line_entry.
  assert (env_entry line = None) as ->; [|exact IH].
  unfold env_entry. destruct Hline as [Hblank | [Hhash | Heq]].
  - by rewrite Hblank.
  - apply startswith_head in Hhash. rewrite Hhash. by rewrite orb_true_r.
  - unfold strip. rewrite strip_with_has_char by done. rewrite Heq.
    by rewrite orb_true_r.
Qed.

(** X3 on a file with a comment, a blank line and a line without an equals
    sign. *)
Lemma load_env_file_ignores_example :
  load_env_file
    (Some (py "# settings" ++ [LF] ++ py "  " ++ [LF] ++ py "no equals sign"))
    {[ py "A" := py "1" ]}
  = ({[ py "A" := py "1" ]}, None).
Proof.
  apply load_env_file_ignores. apply (bool_decide_unpack _). by_compute.
Defined.

Lemma isspace_no_equals (w : pystr) :
  forallb isspace w = true → has_char EQUALS w = false.
Proof. by apply forallb_no_char. Qed.

(** What a well-formed assignment line defines: the name, and the value
    without the quotes around it. *)
Lemma env_entry_assignment (k d w1 w2 w3 w4 : pystr) :
  k ≠ [] → strip k = k → has_char EQUALS k = false → head k ≠ Some HASH →
  d ≠ [] → strip d = d →
  forallb isspace w1 = true → forallb isspace w2 = true →
  forallb isspace w3 = true → forallb isspace w4 = true →
  env_entry (w1 ++ k ++ w2 ++ [EQUALS] ++ w3 ++ d ++ w4)
  = Some (k, strip_chars [DQUOTE] d).
Proof.
  intros Hk Hkfix Hkeq Hhash Hd Hdfix Hw1 Hw2 Hw3 Hw4.
  destruct (strip_with_fixed_ends isspace k Hkfix) as [Hkhead Hklast].
  destruct (strip_with_fixed_ends isspace d Hdfix) as [Hdhead Hdlast].
  set (body := k ++ w2 ++ [EQUALS] ++ w3 ++ d).
  assert (Hline : strip (w1 ++ k ++ w2 ++ [EQUALS] ++ w3 ++ d ++ w4) = body).
  { replace (w1 ++ k ++ w2 ++ [EQUALS] ++ w3 ++ d ++ w4)
      with (w1 ++ body ++ w4) by (subst body; by rewrite <- !app_assoc).
    apply strip_with_tight; try done.
    - subst body. by destruct k.
    - subst body. rewrite !app_assoc, last_app_nonempty by done. exact Hdlast. }
  unfold env_entry. rewrite Hline.
  assert (is_empty body = false) as -> by (subst body; by destruct k).
  assert (startswith [HASH] body = false) as ->.
  { apply not_true_is_false. rewrite startswith_head. subst body.
    by rewrite head_app_nonempty. }
  assert (has_char EQUALS body = true) as ->.
  { subst body. rewrite !has_char_app. simpl. by rewrite !orb_true_r. }
  simpl.
  assert (split1 EQUALS body = (k ++ w2, w3 ++ d)) as ->.
  { subst body. rewrite (app_assoc k w2).
    apply (split1_app EQUALS (k ++ w2) (w3 ++ d)).
    rewrite has_char_app, Hkeq. by rewrite isspace_no_equals. }
  simpl. f_equal. f_equal.
  - rewrite <- (app_nil_l (k ++ w2)). by apply strip_with_tight.
  - f_equal. rewrite <- (app_nil_r d) at 1. by apply strip_with_tight.
Qed.

Lemma env_accepts_name (k v : pystr) :
  env_accepts k v = true → k ≠ [] ∧ has_char EQUALS k = false.
Proof.
  unfold env_accepts. rewrite !andb_true_iff, !negb_true_iff.
  intros (((((_ & _) & _) & _) & Heq) & Hne). split; [|done].
  by destruct k.
Qed.

(** X4: a line [NAME=VALUE] or [NAME="VALUE"], with or without blanks
    around the name and the value, sets an unset [NAME] to [VALUE], when
    the operating system accepts the two: a non-empty name without equals
    sign, no NUL character in either, and text that can be encoded. *)
Theorem load_env_line_sets (env : gmap pystr pystr) (k v w1 w2 w3 w4 : pystr) :
  env_accepts k v = true →
  strip k = k → head k ≠ Some HASH → strip_chars [DQUOTE] v = v →
  forallb isspace w1 = true → forallb isspace w2 = true →
  forallb isspace w3 = true → forallb isspace w4 = true →
  env !! k = None →
  load_env_line env
    (w1 ++ k ++ w2 ++ [EQUALS] ++ w3 ++ ([DQUOTE] ++ v ++ [DQUOTE]) ++ w4)
  = Ok (<[k := v]> env)
  ∧ (v ≠ [] → strip v = v →
     load_env_line env (w1 ++ k ++ w2 ++ [EQUALS] ++ w3 ++ v ++ w4)
     = Ok (<[k := v]> env)).
Proof.
  intros Hacc Hkfix Hhash Hvfix Hw1 Hw2 Hw3 Hw4 Hunset.
  destruct (env_accepts_name k v Hacc) as [Hk Hkeq].
  destruct (strip_with_fixed_ends _ v Hvfix) as [Hvhead Hvlast].
  split; [|intros Hv Hvs]; rewrite load_env_line_entry.
  - rewrite env_entry_assignment; try done.
    + replace (strip_chars [DQUOTE] ([DQUOTE] ++ v ++ [DQUOTE])) with v.
      { by apply environ_setdefault_accepts. }
      symmetry. by apply strip_with_tight.
    + apply strip_with_fixed; [done|].
      by rewrite app_assoc, last_snoc.
  - rewrite env_entry_assignment; try done.
    rewrite Hvfix. by apply environ_setdefault_accepts.
Qed.

(** X4 on a quoted value with blanks around the equals sign. *)
Lemma load_env_line_sets_example :
  load_env_line ∅ (py "API_KEY = " ++ [DQUOTE] ++ py "s3cret" ++ [DQUOTE])
  = Ok {[ py "API_KEY" := py "s3cret" ]}.
Proof.
  etrans;
    [apply (load_env_line_sets ∅ (py "API_KEY") (py "s3cret")
              [] (py " ") (py " ") []); by_compute|].
  by_compute.
Defined.

Lemma strip_with_head (p : N → bool) (c : N) (s : pystr) :
  p c = false → head (strip_with p (c :: s)) = Some c.
Proof.
  intros Hc. destruct (strip_with_spec p (c :: s)) as (l & r & Heq & Hl & Hr).
  destruct l as [|x l].
  - destruct (strip_with p (c :: s)) as [|y t].
    + simpl in Heq. subst r. simpl in Hr. by rewrite Hc in Hr.
    + by injection Heq as -> _.
  - injection Heq as <- _. simpl in Hl. by rewrite Hc in Hl.
Qed.

(** What an entry of the env file looks like. *)
Lemma env_entry_shape (line k v : pystr) :
  env_entry line = Some (k, v) →
  strip k = k ∧ has_char EQUALS k = false ∧ head k ≠ Some HASH
  ∧ strip_chars [DQUOTE] v = v.
Proof.
  unfold env_entry.
  destruct (is_empty (strip line)) eqn:Hblank; [done|].
  destruct (startswith [HASH] (strip line)) eqn:Hhash; [done|].
  destruct (has_char EQUALS (strip line)) eqn:Heq; [|done]. simpl.
  intros [= <- <-].
  destruct (split1_spec EQUALS (strip line) Heq) as [Hcut Hno].
  destruct (split1 EQUALS (strip line)) as [k0 v0]. simpl in *.
  split_and!.
  - apply strip_with_idemp.
  - by apply strip_with_no_char.
  - destruct k0 as [|c k0]; [done|].
    pose proof (proj1 (strip_with_ends isspace line)) as Hhead.
    fold (strip line) in Hhead. rewrite Hcut in Hhead. simpl in Hhead.
    unfold strip. rewrite strip_with_head by done. intros [= ->].
    rewrite Hcut in Hhash. by cbn in Hhash.
  - apply strip_with_idemp.
Qed.

(** A variable the loop adds comes from a line, and the operating system
    has accepted it. *)
Lemma load_env_lines_adds (lines : list pystr) (env : gmap pystr pystr)
    (k v : pystr) :
  env !! k = None → (load_env_lines lines env).1 !! k = Some v →
  env_accepts k v = true
  ∧ ∃ line, line ∈ lines ∧ env_entry line = Some (k, v).
Proof.
  revert env. induction lines as [|line lines IH]; intros env Hunset; simpl.
  - by rewrite Hunset.
  - rewrite load_env_line_entry.
    destruct (env_entry line) as [[k' v']|] eqn:Hentry.
    2: { intros (Hacc & l & Hl & Hin)%IH; [|done]. split; [done|].
         exists l. split; [by right | done]. }
    destruct (environ_setdefault k' v' env) as [env1|e] eqn:Hset;
      [|simpl; congruence].
    apply environ_setdefault_ok in Hset as (_ & Hset).
    destruct (env1 !! k) as [v1|] eqn:Hk1.
    + pose proof (lookup_weaken _ _ _ _ Hk1
                    (load_env_lines_subseteq lines env1)) as Hfinal.
      rewrite Hfinal. intros [= <-].
      destruct Hset as [[_ ->] | (_ & -> & Hacc)]; [congruence|].
      destruct (decide (k' = k)) as [->|Hne].
      * rewrite lookup_insert_eq in Hk1. injection Hk1 as ->.
        split; [done|]. exists line. split; [by left | done].
      * rewrite lookup_insert_ne in Hk1 by done. congruence.
    + intros (Hacc & l & Hl & Hin)%IH; [|done]. split; [done|].
      exists l. split; [by right | done].
Qed.

(** X5: a variable the loader adds has a trimmed name with no equals sign
    in it and no hash sign in front, and a value with no double quote at
    either end; and the operating system has accepted the two. *)
Theorem load_env_file_adds (file : option pystr) (env : gmap pystr pystr)
    (k v : pystr) :
  env !! k = None → (load_env_file file env).1 !! k = Some v →
  strip k = k ∧ has_char EQUALS k = false ∧ head k ≠ Some HASH
  ∧ strip_chars [DQUOTE] v = v ∧ env_accepts k v = true.
Proof.
  intros Hunset. destruct file as [text|]; [|simpl; congruence].
  unfold load_env_file.
  intros (Hacc & line & _ & Hentry)%load_env_lines_adds; [|done].
  apply env_entry_shape in Hentry as (? & ? & ? & ?). done.
Qed.

(** X5 on a line whose value has an equals sign of its own. *)
Lemma load_env_file_adds_example :
  let v := py "a=b" in
  (load_env_file (Some (py " K = " ++ [DQUOTE] ++ v ++ [DQUOTE])) ∅).1
    !! py "K" = Some v
  ∧ strip (py "K") = py "K" ∧ strip_chars [DQUOTE] v = v.
Proof.
  intros v. split; [by_compute|].
  destruct (load_env_file_adds
              (Some (py " K = " ++ [DQUOTE] ++ v ++ [DQUOTE])) ∅ (py "K") v)
    as (Hk & _ & _ & Hv & _); [by_compute..|].
  by split.
Defined.

(** ** Further facts about the header loops *)

Lemma last_wins_elem (k v : pystr) (kvs : list (pystr * pystr)) :
  last_wins kvs !! k = Some v → (k, v) ∈ kvs.
Proof.
  unfold last_wins. intros Hin%elem_of_list_to_map_2.
  by rewrite elem_of_reverse in Hin.
Qed.

(** Both sides of an item are trimmed, the key has no colon, and neither
    side has a character the item has not. *)
Lemma item_pair_shape (item k v : pystr) :
  item_pair item = Some (k, v) →
  strip k = k ∧ strip v = v ∧ has_char COLON k = false
  ∧ ∀ c, has_char c item = false → has_char c k = false ∧ has_char c v = false.
Proof.
  intros (sep & k0 & v0 & -> & Hno & -> & -> & Hsep)%item_pair_spec.
  split_and!; try apply strip_with_idemp.
  - apply strip_with_no_char. destruct Hsep as [-> | [-> Hcolon]]; [done|].
    by apply has_char_false_app in Hcolon as [? _].
  - intros c [Hk Hv]%has_char_false_app.
    simpl in Hv. apply orb_false_iff in Hv as [_ Hv].
    split; by apply strip_with_no_char.
Qed.

Lemma split_char_no_char (sep c : N) (s : pystr) :
  has_char c s = false →
  Forall (λ part, has_char c part = false) (split_char sep s).
Proof.
  induction s as [|x s IH]; simpl; [by repeat constructor|].
  intros [Hx Hs]%orb_false_iff. specialize (IH Hs).
  destruct (x =? sep); [by constructor|].
  destruct (split_char sep s) as [|h t]; [by repeat constructor; simpl; rewrite Hx|].
  inversion_clear IH as [|? ? Hh Ht]. constructor; [|done].
  simpl. by rewrite Hx, Hh.
Qed.

(** No part of a split contains the separator. *)
Lemma split_char_no_sep (sep : N) (s : pystr) :
  Forall (λ part, has_char sep part = false) (split_char sep s).
Proof.
  induction s as [|x s IH]; simpl; [by repeat constructor|].
  destruct (x =? sep) eqn:Hx; [by constructor|].
  rewrite N.eqb_sym in Hx.
  destruct (split_char sep s) as [|h t]; [by repeat constructor; simpl; rewrite Hx|].
  inversion_clear IH as [|? ? Hh Ht]. constructor; [|done].
  simpl. by rewrite Hx, Hh.
Qed.

Lemma drop_no_char (c : N) (n : nat) (s : pystr) :
  has_char c s = false → has_char c (drop n s) = false.
Proof.
  rewrite <- (take_drop n s) at 1. rewrite has_char_false_app. tauto.
Qed.

Lemma items_of_elem (item : pystr) (parts : list pystr) :
  item ∈ items_of parts → ∃ part, part ∈ parts ∧ item = strip part.
Proof.
  unfold items_of. intros Hin. apply list_elem_of_In, filter_In in Hin as [Hin _].
  apply list_elem_of_In, list_elem_of_fmap in Hin as (part & -> & Hin).
  by exists part.
Qed.

(** X6: the loop over the parts of a brace list and the loop over the
    [--header] flags read the same items in the same way: on the same items
    they build the same mapping, and one fails exactly when the other
    does. *)
Theorem header_loops_agree (items : list pystr) (start : gmap pystr pystr) :
  (∀ m, brace_items items start = Ok m ↔ header_flags items start = Ok m)
  ∧ ((∃ e, brace_items items start = Raise e)
     ↔ header_flags items start = Raise (ValueError MSG_FLAG)).
Proof.
  rewrite brace_items_spec, header_flags_spec.
  destruct (List.find lacks_separator (items_of items)) as [bad|].
  - split; [done|]. split; [done|]. intros _. by eexists.
  - split; [done|]. split; [by intros [? ?] | done].
Qed.

(** X7: a run of [--header] flags is read flag by flag: reading two runs
    one after the other is reading them as one, and an error in the first
    run is the error of the whole. *)
Theorem header_flags_app (xs ys : list pystr) (extra : gmap pystr pystr) :
  header_flags (xs ++ ys) extra =
    match header_flags xs extra with
    | Ok m => header_flags ys m
    | Raise e => Raise e
    end.
Proof.
  revert extra. induction xs as [|x xs IH]; intros extra; [done|]. simpl.
  destruct (is_empty (strip x)); [apply IH|].
  destruct (has_char COLON (strip x)).
  { destruct (split1 COLON (strip x)) as [k v]. apply IH. }
  destruct (has_char EQUALS (strip x)); [|done].
  destruct (split1 EQUALS (strip x)) as [k v]. apply IH.
Qed.

(** X8: an entry of the mapping after the [--header] flags is an entry of
    the bulk mapping, or it comes from a flag: then its key and its value
    are trimmed, and its key has no colon. *)
Theorem header_flags_entries (items : list pystr) (extra m : gmap pystr pystr)
    (k v : pystr) :
  header_flags items extra = Ok m → m !! k = Some v →
  extra !! k = Some v
  ∨ (strip k = k ∧ strip v = v ∧ has_char COLON k = false).
Proof.
  rewrite header_flags_spec.
  destruct (List.find lacks_separator (items_of items)); [done|].
  intros [= <-] [Hflag | [_ Hbulk]]%lookup_union_Some_raw; [right | by left].
  apply last_wins_elem, list_elem_of_omap in Hflag as (item & _ & Hpair).
  apply item_pair_shape in Hpair as (? & ? & ? & _). done.
Qed.

(** X8 on a flag with blanks around the name and a colon in the value. *)
Lemma header_flags_entries_example :
  let m : gmap pystr pystr := {[ py "X-Trace" := py "a:b" ]} in
  header_flags [py " X-Trace : a:b "] ∅ = Ok m
  ∧ strip (py "X-Trace") = py "X-Trace"
  ∧ has_char COLON (py "X-Trace") = false.
Proof.
  intros m. split; [by_compute|].
  destruct (header_flags_entries [py " X-Trace : a:b "] ∅ m
              (py "X-Trace") (py "a:b")) as [Hbulk | (Hk & _ & Hcolon)];
    [by_compute.. | done | by split].
Defined.

Section BraceList.

Context (json_loads : pystr → Json.loads_result).
Context (literal_eval : pystr → pyvalue + pystr).

(** X9: in the mapping read from a brace list every key and every value is
    trimmed and has no comma and no quote character in it, and no key has a
    colon. *)
Theorem parse_headers_brace_list_entries (raw : pystr)
    (m : gmap pystr pystr) (k v : pystr) :
  json_loads raw = Json.JSONDecodeError →
  is_brace_list (strip raw) = true →
  parse_headers json_loads literal_eval (Some raw) = Ok m →
  m !! k = Some v →
  strip k = k ∧ strip v = v ∧ has_char COLON k = false
  ∧ ∀ c, c ∈ [COMMA; DQUOTE; SQUOTE] →
         has_char c k = false ∧ has_char c v = false.
Proof.
  intros Hjson Hbrace. unfold parse_headers.
  destruct raw as [|c0 raw']; [by intros [= <-]|].
  rewrite Hjson, Hbrace.
  set (stripped := strip (c0 :: raw')) in *.
  set (inner := strip (slice_1_m1 stripped)).
  destruct (is_empty inner); [by intros [= <-]|].
  rewrite brace_items_spec.
  destruct (List.find lacks_separator _); [done|].
  rewrite validate_py_of_dict, (right_id_L ∅ (∪)).
  remember (omap item_pair (items_of (split_char COMMA inner))) as kvs eqn:Hkvs.
  intros Hm Hin. assert (m = last_wins kvs) as -> by congruence. subst kvs.
  apply last_wins_elem, list_elem_of_omap in Hin as (item & Hitem & Hpair).
  apply items_of_elem in Hitem as (part & Hpart & ->).
  apply item_pair_shape in Hpair as (Hk & Hv & Hcolon & Hchars).
  split_and!; try done. intros c Hc. apply Hchars, strip_with_no_char.
  assert (Hquotes : has_char DQUOTE inner = false
                    ∧ has_char SQUOTE inner = false).
  { unfold is_brace_list in Hbrace.
    apply andb_true_iff in Hbrace as [[_ Hdq]%andb_true_iff Hsq].
    apply negb_true_iff in Hdq, Hsq. subst inner. unfold slice_1_m1.
    split; by apply strip_with_no_char, drop_no_char, take_no_char. }
  destruct Hquotes as [Hdq Hsq].
  pose proof (split_char_no_sep COMMA inner) as Hcomma.
  pose proof (split_char_no_char COMMA DQUOTE inner Hdq) as Hd.
  pose proof (split_char_no_char COMMA SQUOTE inner Hsq) as Hs.
  rewrite Forall_forall in Hcomma, Hd, Hs.
  set_unfold in Hc. destruct Hc as [-> | [-> | [-> | []]]]; auto.
Qed.

End BraceList.

(** X9 on a brace list with blanks around its items. *)
Lemma parse_headers_brace_list_entries_example :
  let raw := py "{ Accept : text/plain , X=1 }" in
  parse_headers Json.loads Literal.eval (Some raw)
  = Ok {[ py "Accept" := py "text/plain"; py "X" := py "1" ]}
  ∧ strip (py "Accept") = py "Accept"
  ∧ strip (py "text/plain") = py "text/plain".
Proof.
  intros raw. split; [by_compute|].
  destruct (parse_headers_brace_list_entries Json.loads Literal.eval raw
              {[ py "Accept" := py "text/plain"; py "X" := py "1" ]}
              (py "Accept") (py "text/plain")) as (Hk & Hv & _);
    [by_compute.. | by split].
Defined.

(** ** Further facts about [summarize_body] *)

Lemma replace_lf_isspace (s : pystr) :
  forallb isspace (replace_char LF SPACE s) = forallb isspace s.
Proof.
  induction s as [|x s IH]; [done|]. simpl. rewrite IH. f_equal.
  destruct (x =? LF) eqn:Hx; [|done]. apply N.eqb_eq in Hx. by subst x.
Qed.

(** X10: whatever the (non-negative) limit, the excerpt is at most three
    characters longer than the limit; up to the limit it has the characters
    of the body with line feeds replaced by spaces and the ends trimmed; and
    it is that text when the text is no longer than the limit. *)
Theorem summarize_body_limit_bound (text : pystr) (limit : nat) :
  let flat := strip (replace_char LF SPACE text) in
  let out := summarize_body_limit text limit in
  (length out ≤ limit + 3)%nat
  ∧ take limit out = take limit flat
  ∧ ((length flat ≤ limit)%nat → out = flat).
Proof.
  intros flat out. subst out. unfold summarize_body_limit. fold flat.
  destruct (Nat.ltb_spec limit (length flat)) as [Hlong | Hshort].
  - unfold slice_to. rewrite length_app, length_take.
    change (length (py "...")) with 3%nat. split_and!; [lia| |lia].
    rewrite take_app_le by (rewrite length_take; lia).
    by rewrite take_take, Nat.min_id.
  - split_and!; [lia | done | done].
Qed.

(** X10 on a short body: the trimmed text is returned as it is. *)
Lemma summarize_body_limit_bound_example :
  summarize_body_limit (py " ab" ++ [LF]) 5 = py "ab".
Proof.
  destruct (summarize_body_limit_bound (py " ab" ++ [LF]) 5) as (_ & _ & Hshort).
  etrans; [apply Hshort; vm_compute; lia | by_compute].
Defined.

(** X11: the excerpt is empty exactly when the body is empty or consists of
    whitespace only, whatever the limit. *)
Theorem summarize_body_blank (text : pystr) (limit : nat) :
  summarize_body_limit text limit = [] ↔ forallb isspace text = true.
Proof.
  unfold summarize_body_limit.
  rewrite <- (replace_lf_isspace text), <- strip_with_empty.
  fold (strip (replace_char LF SPACE text)).
  destruct (Nat.ltb_spec limit (length (strip (replace_char LF SPACE text))))
    as [Hlong | Hshort]; [|done].
  split.
  - intros Hnil. apply (f_equal length) in Hnil. rewrite length_app in Hnil.
    change (length (py "...")) with 3%nat in Hnil. simpl in Hnil. lia.
  - intros Hnil. rewrite Hnil in Hlong. simpl in Hlong. lia.
Qed.



(** ** Further facts about [main] *)

Lemma rstrip_with_snoc (p : N → bool) (s : pystr) (c : N) :
  p c = true → rstrip_with p (s ++ [c]) = rstrip_with p s.
Proof.
  intros Hc. unfold rstrip_with. rewrite rev_app_distr. simpl. by rewrite Hc.
Qed.

Lemma rstrip_with_last (p : N → bool) (s : pystr) :
  match last (rstrip_with p s) with
  | None => True
  | Some c => p c = false
  end.
Proof.
  unfold rstrip_with. rewrite <- head_rev, rev_involutive.
  pose proof (drop_while_head p (rev s)) as Hhead.
  by destruct (drop_while p (rev s)).
Qed.

Lemma key_prompt_filter (env : gmap pystr pystr) (a : Args) :
  List.filter is_http_call (key_prompt env a) = []
  ∧ List.filter is_prompt (key_prompt env a) = key_prompt env a.
Proof. unfold key_prompt. by destruct (prompts_for_key env a). Qed.

Lemma models_probe_filter (w : World) (base_url : pystr)
    (headers : gmap pystr pystr) :
  List.filter is_http_call (models_probe w base_url headers)
  = [HttpGet (base_url ++ py "/models") headers]
  ∧ List.filter is_prompt (models_probe w base_url headers) = [].
Proof. unfold models_probe. by destruct (http_get w _ headers). Qed.

Section Requests.

Context (json_loads : pystr → Json.loads_result).
Context (literal_eval : pystr → pyvalue + pystr).
Context (lower : pystr → pystr).

Lemma chat_probe_filter (w : World) (base_url model : pystr)
    (headers : gmap pystr pystr) :
  List.filter is_http_call (chat_probe lower w base_url model headers)
  = (if is_empty model then []
     else [HttpPost (base_url ++ py "/chat/completions") headers
             (chat_payload model)])
  ∧ List.filter is_prompt (chat_probe lower w base_url model headers) = [].
Proof.
  unfold chat_probe. destruct (is_empty model); [done|].
  destruct (http_post w _ headers _) as [r|e]; [|done].
  unfold chat_report. by destruct (looks_blocked _ _ _).
Qed.

(** X12: when the env file loads, the headers parse, [base_url] and the key
    are not empty and the client is created, the program sends one GET to
    [base_url/models] and then, when a model is named, one POST of the ping
    payload to [base_url/chat/completions], and nothing else: whatever the
    server answers, and also when the first request fails. *)
Theorem main_http_calls (w : World) (a : Args) (extra : gmap pystr pystr) :
  let env := loaded_env w a in
  let base_url := resolve_base_url env a in
  let model := resolve_model env a in
  let api_key := resolve_api_key w env a in
  let headers := final_headers extra api_key in
  load_error w a = None →
  extra_headers_of json_loads literal_eval env a = Ok extra →
  base_url ≠ [] → api_key ≠ [] →
  http_client w headers = None →
  List.filter is_http_call (main json_loads literal_eval lower w a).1
  = HttpGet (base_url ++ py "/models") headers
    :: (if is_empty model then []
        else [HttpPost (base_url ++ py "/chat/completions") headers
                (chat_payload model)]).
Proof.
  intros env base_url model api_key headers Hload Hextra Hb Hk Hclient.
  unfold main. fold env base_url model api_key. rewrite Hload, Hextra.
  apply is_empty_false in Hb, Hk. rewrite Hb, Hk. cbv zeta. fold headers.
  rewrite Hclient. cbn [fst].
  rewrite !List.filter_app.
  rewrite (proj1 (key_prompt_filter env a)).
  rewrite (proj1 (models_probe_filter w base_url headers)).
  by rewrite (proj1 (chat_probe_filter w base_url model headers)).
Qed.

(** The outcome of a run, by what the loading of the env file, the parsing
    of the headers, the configuration and the creation of the client give. *)
Lemma main_outcome_cases (w : World) (a : Args) :
  let env := loaded_env w a in
  let base_url := resolve_base_url env a in
  let api_key := resolve_api_key w env a in
  let parsed := extra_headers_of json_loads literal_eval env a in
  let out := (main json_loads literal_eval lower w a).2 in
  (out = Exit 0
   ↔ load_error w a = None ∧ base_url ≠ [] ∧ api_key ≠ []
     ∧ ∃ extra, parsed = Ok extra
                ∧ http_client w (final_headers extra api_key) = None)
  ∧ (out = Exit 2
     ↔ load_error w a = None ∧ (∃ extra, parsed = Ok extra)
       ∧ (base_url = [] ∨ api_key = []))
  ∧ (∀ e, out = Uncaught e
          ↔ load_error w a = Some e
            ∨ (load_error w a = None ∧ parsed = Raise e)
            ∨ (load_error w a = None ∧ base_url ≠ [] ∧ api_key ≠ []
               ∧ ∃ extra,
                   parsed = Ok extra
                   ∧ http_client w (final_headers extra api_key) = Some e)).
Proof.
  intros env base_url api_key parsed out. subst out. unfold main.
  fold env base_url api_key parsed.
  destruct (load_error w a) as [err|].
  { split_and!.
    - split; [done | by intros [? _]].
    - split; [done | by intros [? _]].
    - intros e. split; [intros [= ->]; by left|].
      intros [[= ->] | [[? _] | [? _]]]; done. }
  destruct parsed as [extra|err].
  - destruct (is_empty base_url) eqn:Hb.
    { apply is_empty_true in Hb. split_and!.
      - split; [done|]. by intros (_ & ? & _).
      - split; [|done]. intros _. split_and!; [done | by eexists | by left].
      - intros e. split; [done|].
        intros [? | [[_ ?] | (_ & ? & _)]]; done. }
    destruct (is_empty api_key) eqn:Hk.
    { apply is_empty_true in Hk. split_and!.
      - split; [done|]. by intros (_ & _ & ? & _).
      - split; [|done]. intros _. split_and!; [done | by eexists | by right].
      - intros e. split; [done|].
        intros [? | [[_ ?] | (_ & _ & ? & _)]]; done. }
    apply is_empty_false in Hb, Hk. cbv zeta.
    destruct (http_client w (final_headers extra api_key)) as [err|] eqn:Hc;
      cbn [snd].
    + split_and!.
      * split; [done|]. intros (_ & _ & _ & extra' & [= <-] & Hnone).
        congruence.
      * split; [done|]. by intros (_ & _ & [? | ?]).
      * intros e. split.
        -- intros [= ->]. right. right. split_and!; try done. by exists extra.
        -- intros [? | [[_ ?] | (_ & _ & _ & extra' & [= <-] & Hsome)]];
             [done..|]. congruence.
    + split_and!.
      * split; [|done]. intros _. split_and!; try done. by exists extra.
      * split; [done|]. by intros (_ & _ & [? | ?]).
      * intros e. split; [done|].
        intros [? | [[_ ?] | (_ & _ & _ & extra' & [= <-] & Hsome)]];
          [done..|]. congruence.
  - split_and!.
    + split; [done|]. by intros (_ & _ & _ & ? & ? & _).
    + split; [done|]. by intros (_ & [? ?] & _).
    + intros e. split.
      * intros [= ->]. right. by left.
      * intros [? | [[_ [= ->]] | (_ & _ & _ & ? & ? & _)]]; done.
Qed.

(** The outcome of a run is the same on every server. *)
Lemma main_outcome_server (w w' : World) (a : Args) :
  read_env_file w' = read_env_file w → environ w' = environ w →
  getpass_input w' = getpass_input w → http_client w' = http_client w →
  (main json_loads literal_eval lower w' a).2
  = (main json_loads literal_eval lower w a).2.
Proof.
  intros Hfile Henv Hpass Hclient.
  unfold main, load_error, loaded_env, resolve_api_key.
  rewrite Hfile, Henv, Hpass, Hclient.
  destruct (load_env_file _ _).2; [done|].
  destruct (extra_headers_of _ _ _ _); [|done].
  destruct (is_empty (resolve_base_url _ _)); [done|].
  destruct (is_empty _); [done|]. cbv zeta.
  by destruct (http_client w _).
Qed.

(** X13: how a run ends.  The exit code is 0 exactly when the env file
    loads, the headers parse, [base_url] and the key are non-empty and the
    client is created, whatever the server answers; it is 2 exactly when
    the env file loads, the headers parse and one of the two is empty; and
    the run ends on an exception exactly when the loading of the env file,
    the parsing of the headers or the creation of the client raises it.
    What the server answers, or whether it answers at all, changes nothing
    of this. *)
Theorem main_outcome (w : World) (a : Args) :
  let env := loaded_env w a in
  let base_url := resolve_base_url env a in
  let api_key := resolve_api_key w env a in
  let parsed := extra_headers_of json_loads literal_eval env a in
  let out := (main json_loads literal_eval lower w a).2 in
  (out = Exit 0
   ↔ load_error w a = None ∧ base_url ≠ [] ∧ api_key ≠ []
     ∧ ∃ extra, parsed = Ok extra
                ∧ http_client w (final_headers extra api_key) = None)
  ∧ (out = Exit 2
     ↔ load_error w a = None ∧ (∃ extra, parsed = Ok extra)
       ∧ (base_url = [] ∨ api_key = []))
  ∧ (∀ e, out = Uncaught e
          ↔ load_error w a = Some e
            ∨ (load_error w a = None ∧ parsed = Raise e)
            ∨ (load_error w a = None ∧ base_url ≠ [] ∧ api_key ≠ []
               ∧ ∃ extra,
                   parsed = Ok extra
                   ∧ http_client w (final_headers extra api_key) = Some e))
  ∧ (∀ get post,
       (main json_loads literal_eval lower
          {| read_env_file := read_env_file w; environ := environ w;
             getpass_input := getpass_input w; http_client := http_client w;
             http_get := get; http_post := post |} a).2 = out).
Proof.
  intros env base_url api_key parsed out.
  destruct (main_outcome_cases w a) as (Hzero & Htwo & Hraise).
  split_and!; [done..|].
  intros get post. by apply main_outcome_server.
Qed.

End Requests.

(** X12 on a run against a server that answers: one GET, then one POST. *)
Lemma main_http_calls_example :
  let w := world_with {[ py "API_KEY" := py "k" ]} (json_response (py "{}")) in
  let a := with_base_url (py "http://x/v1/") (py "m") no_flags in
  let h := final_headers ∅ (py "k") in
  List.filter is_http_call (main Json.loads Literal.eval lower_ascii w a).1
  = [ HttpGet (py "http://x/v1/models") h;
      HttpPost (py "http://x/v1/chat/completions") h (chat_payload (py "m")) ].
Proof.
  intros w a h.
  etrans; [apply (main_http_calls Json.loads Literal.eval lower_ascii w a ∅);
           by_compute|].
  by_compute.
Defined.


Section Configuration.

Context (json_loads : pystr → Json.loads_result).
Context (literal_eval : pystr → pyvalue + pystr).
Context (lower : pystr → pystr).

(** Every request of a run carries the final headers. *)
Lemma main_sent (w : World) (a : Args) (e : event) (h : gmap pystr pystr) :
  let env := loaded_env w a in
  e ∈ (main json_loads literal_eval lower w a).1 →
  sent_headers e = Some h →
  ∃ extra,
    extra_headers_of json_loads literal_eval env a = Ok extra
    ∧ h = final_headers extra (resolve_api_key w env a).
Proof.
  intros env He Hsent. unfold main in He. fold env in He.
  destruct (load_error w a) as [err|]; [by apply elem_of_nil in He|].
  destruct (extra_headers_of json_loads literal_eval env a) as [extra|err].
  - destruct (is_empty (resolve_base_url env a)).
    { simpl in He. apply elem_of_app in He as [He | He].
      - destruct (key_prompt_no_http _ _ _ He) as [_ Hn]. congruence.
      - apply list_elem_of_singleton in He. by subst. }
    destruct (is_empty (resolve_api_key w env a)).
    { simpl in He. apply elem_of_app in He as [He | He].
      - destruct (key_prompt_no_http _ _ _ He) as [_ Hn]. congruence.
      - apply list_elem_of_singleton in He. by subst. }
    exists extra. split; [done|]. cbv zeta in He.
    destruct (http_client w _); cbn [fst] in He; rewrite !elem_of_app in He.
    + destruct He as [He | He].
      * destruct (key_prompt_no_http _ _ _ He) as [_ Hn]. congruence.
      * set_unfold. by destruct_or!; subst.
    + destruct He as [He | [He | [He | He]]].
      * destruct (key_prompt_no_http _ _ _ He) as [_ Hn]. congruence.
      * set_unfold. by destruct_or!; subst.
      * by eapply models_probe_sent.
      * by eapply chat_probe_sent.
  - simpl in He. destruct (key_prompt_no_http _ _ _ He) as [_ Hn]. congruence.
Qed.

(** X14: trailing slashes of the base URL are dropped.  The resolved
    [base_url] never ends with a slash, and a run with [--base-url u/] is
    the run with [--base-url u]. *)
Theorem main_trailing_slash (w : World) (a : Args) (u : pystr) :
  last (resolve_base_url (loaded_env w a) a) ≠ Some SLASH
  ∧ (u ≠ [] →
     main json_loads literal_eval lower w (set_base_url (Some (u ++ [SLASH])) a)
     = main json_loads literal_eval lower w (set_base_url (Some u) a)).
Proof.
  split.
  - unfold resolve_base_url, rstrip_chars.
    pose proof (rstrip_with_last (in_chars [SLASH])
                  (or_else (arg_base_url a) id
                     (getenv (loaded_env w a) "MODEL_BASE_URL" []))) as Hlast.
    destruct (last _) as [c|]; [|done]. intros [= ->]. done.
  - intros Hu.
    assert (Hbase : ∀ env,
              resolve_base_url env (set_base_url (Some (u ++ [SLASH])) a)
              = resolve_base_url env (set_base_url (Some u) a)).
    { intros env. unfold resolve_base_url. cbn [set_base_url arg_base_url].
      destruct u as [|c u]; [done|]. cbn [app or_else id].
      change (c :: u ++ [SLASH]) with ((c :: u) ++ [SLASH]).
      by apply rstrip_with_snoc. }
    unfold main, loaded_env, load_error. rewrite !Hbase. reflexivity.
Qed.

(** X15: the program reads four variables of the environment.  Two
    machines on which the loading of the env file ends alike and leaves
    environments that agree on the four, and which answer the prompt, the
    creation of the client and the requests alike, give the same run. *)
Theorem main_reads_four_variables (w w' : World) (a : Args) :
  load_error w a = load_error w' a →
  (∀ k, k ∈ probe_variables →
        loaded_env w a !! py k = loaded_env w' a !! py k) →
  getpass_input w = getpass_input w' →
  http_client w = http_client w' →
  http_get w = http_get w' → http_post w = http_post w' →
  main json_loads literal_eval lower w a
  = main json_loads literal_eval lower w' a.
Proof.
  intros Hload Hvars Hpass Hclient Hget Hpost.
  assert (Hbase : loaded_env w a !! py "MODEL_BASE_URL"
                  = loaded_env w' a !! py "MODEL_BASE_URL")
    by (apply Hvars; set_solver).
  assert (Hname : loaded_env w a !! py "MODEL_NAME"
                  = loaded_env w' a !! py "MODEL_NAME")
    by (apply Hvars; set_solver).
  assert (Hkey : loaded_env w a !! py "API_KEY"
                 = loaded_env w' a !! py "API_KEY")
    by (apply Hvars; set_solver).
  assert (Hhdr : loaded_env w a !! py "MODEL_DEFAULT_HEADERS"
                 = loaded_env w' a !! py "MODEL_DEFAULT_HEADERS")
    by (apply Hvars; set_solver).
  unfold main, resolve_base_url, resolve_model, key_prompt, resolve_api_key,
    prompts_for_key, extra_headers_of, getenv, getenv_opt, models_probe,
    chat_probe.
  rewrite Hload. clear Hload.
  generalize dependent (loaded_env w a). generalize (loaded_env w' a).
  intros env' env _ Hbase Hname Hkey Hhdr.
  by rewrite Hbase, Hname, Hkey, Hhdr, Hpass, Hclient, Hget, Hpost.
Qed.

(** X16: the operator is asked for the key at most once, and exactly when
    the env file has loaded without an exception, [--prompt-key] is given
    and [API_KEY] is then unset or empty; the prompt comes before anything
    else the program does, also in a run that ends for want of a [base_url]
    or on a header error. *)
Theorem main_prompts (w : World) (a : Args) :
  let env := loaded_env w a in
  let events := (main json_loads literal_eval lower w a).1 in
  let asks :=
    match load_error w a with
    | Some _ => false
    | None => is_empty (getenv env "API_KEY" []) && arg_prompt_key a
    end in
  List.filter is_prompt events = (if asks then [Getpass KEY_PROMPT] else [])
  ∧ (asks = true → head events = Some (Getpass KEY_PROMPT)).
Proof.
  intros env events asks. subst events asks.
  unfold main, key_prompt, prompts_for_key, KEY_PROMPT. fold env.
  destruct (load_error w a) as [err|]; [done|].
  set (asks := is_empty (getenv env "API_KEY" []) && arg_prompt_key a).
  clearbody asks.
  destruct (extra_headers_of json_loads literal_eval env a) as [extra|err].
  - destruct (is_empty (resolve_base_url env a));
      [|destruct (is_empty (resolve_api_key w env a))]; cbn [fst].
    1,2: by destruct asks.
    cbv zeta. destruct (http_client w _); cbn [fst];
      rewrite !List.filter_app.
    { by destruct asks. }
    rewrite (proj2 (models_probe_filter _ _ _)).
    rewrite (proj2 (chat_probe_filter lower _ _ _ _)).
    by destruct asks.
  - cbn [fst]. by destruct asks.
Qed.

(** X17: a non-empty [API_KEY] of the process environment is the key every
    request carries, whatever the env file says and whether or not
    [--prompt-key] is given. *)
Theorem main_key_from_environment (w : World) (a : Args) (key : pystr)
    (e : event) (h : gmap pystr pystr) :
  environ w !! py "API_KEY" = Some key → key ≠ [] →
  e ∈ (main json_loads literal_eval lower w a).1 →
  sent_headers e = Some h →
  h !! py "Authorization" = Some (py "Bearer " ++ key).
Proof.
  intros Henv Hkey He Hsent.
  destruct (main_sent w a e h He Hsent) as (extra & _ & ->).
  assert (Hloaded : loaded_env w a !! py "API_KEY" = Some key).
  { unfold loaded_env. by eapply lookup_weaken; [|apply load_env_file_subseteq]. }
  assert (resolve_api_key w (loaded_env w a) a = key) as ->.
  { unfold resolve_api_key, prompts_for_key, getenv. rewrite Hloaded. simpl.
    by destruct key. }
  apply final_headers_spec.
Qed.

(** X18: with no [--headers], no [MODEL_DEFAULT_HEADERS] and no [--header]
    flag, every request carries exactly three headers: the bearer token and
    the defaults of [User-Agent] and [Accept]. *)
Theorem main_default_headers (w : World) (a : Args) (e : event)
    (h : gmap pystr pystr) :
  let env := loaded_env w a in
  arg_headers a = None → arg_header a = [] →
  env !! py "MODEL_DEFAULT_HEADERS" = None →
  e ∈ (main json_loads literal_eval lower w a).1 →
  sent_headers e = Some h →
  h = {[ py "Authorization" := py "Bearer " ++ resolve_api_key w env a;
         py "User-Agent" := py "Mozilla/5.0";
         py "Accept" := py "application/json" ]}.
Proof.
  intros env Hbulk Hflags Hvar He Hsent.
  destruct (main_sent w a e h He Hsent) as (extra & Hextra & ->).
  fold env in Hextra |- *.
  unfold extra_headers_of, getenv_opt in Hextra.
  rewrite Hbulk, Hflags, Hvar in Hextra. injection Hextra as <-.
  assert (Hne : py "User-Agent" ≠ py "Accept") by by_compute.
  unfold final_headers, setdefault. cbv zeta.
  rewrite lookup_empty, lookup_insert_ne by done.
  by rewrite lookup_empty, insert_empty.
Qed.

End Configuration.

(** X14 on one address. *)
Lemma main_trailing_slash_example :
  let w := world_with {[ py "API_KEY" := py "k" ]} (json_response (py "{}")) in
  main Json.loads Literal.eval lower_ascii w
    (set_base_url (Some (py "http://x/v1" ++ [SLASH])) no_flags)
  = main Json.loads Literal.eval lower_ascii w
      (set_base_url (Some (py "http://x/v1")) no_flags).
Proof.
  intros w.
  apply (main_trailing_slash Json.loads Literal.eval lower_ascii w no_flags
           (py "http://x/v1")).
  by_compute.
Defined.

(** X15: a variable the program does not read makes no difference. *)
Lemma main_reads_four_variables_example :
  let env : gmap pystr pystr :=
    {[ py "API_KEY" := py "k"; py "MODEL_BASE_URL" := py "http://x/v1" ]} in
  main Json.loads Literal.eval lower_ascii
    (world_with env (json_response (py "{}"))) no_flags
  = main Json.loads Literal.eval lower_ascii
      (world_with (<[py "HOME" := py "/root"]> env) (json_response (py "{}")))
      no_flags.
Proof.
  intros env. apply main_reads_four_variables; try reflexivity.
  intros k Hk. unfold probe_variables in Hk. set_unfold in Hk.
  destruct_or!; subst k; by_compute.
Defined.

(** X16: with [--prompt-key] and no key anywhere the run starts with the
    prompt, although it then ends for want of a [base_url]. *)
Lemma main_prompts_example :
  let a := {| arg_env_file := py ".env"; arg_base_url := None;
              arg_model := None; arg_headers := None; arg_header := [];
              arg_prompt_key := true |} in
  head (main Json.loads Literal.eval lower_ascii
          (world_with ∅ (json_response [])) a).1
  = Some (Getpass KEY_PROMPT).
Proof.
  intros a.
  apply (main_prompts Json.loads Literal.eval lower_ascii
           (world_with ∅ (json_response [])) a).
  by_compute.
Defined.

(** X17: the environment says [API_KEY=live], the env file
    [API_KEY=secret], and [--prompt-key] is given: the first request carries
    [Bearer live]. *)
Lemma main_key_from_environment_example :
  let w := {| read_env_file := λ _, Some (py "API_KEY=secret");
              environ := {[ py "API_KEY" := py "live" ]};
              getpass_input := py "typed";
              http_client := ascii_client;
              http_get := λ _ _, inl (json_response []);
              http_post := λ _ _ _, inl (json_response []) |} in
  let a := {| arg_env_file := py ".env";
              arg_base_url := Some (py "http://x/v1");
              arg_model := None; arg_headers := None; arg_header := [];
              arg_prompt_key := true |} in
  let h := final_headers ∅ (py "live") in
  (main Json.loads Literal.eval lower_ascii w a).1 !! 3%nat
  = Some (HttpGet (py "http://x/v1/models") h)
  ∧ h !! py "Authorization" = Some (py "Bearer live").
Proof.
  intros w a h. split; [by_compute|].
  apply (main_key_from_environment Json.loads Literal.eval lower_ascii w a
           (py "live") (HttpGet (py "http://x/v1/models") h)).
  - by_compute.
  - by_compute.
  - apply (list_elem_of_lookup_2 _ 3). by_compute.
  - reflexivity.
Defined.

(** X18 on a run with nothing but a key and an address. *)
Lemma main_default_headers_example :
  let w := world_with {[ py "API_KEY" := py "k" ]} (json_response []) in
  let a := set_base_url (Some (py "http://x/v1")) no_flags in
  let h := final_headers ∅ (py "k") in
  (main Json.loads Literal.eval lower_ascii w a).1 !! 3%nat
  = Some (HttpGet (py "http://x/v1/models") h)
  ∧ h = {[ py "Authorization" := py "Bearer k";
           py "User-Agent" := py "Mozilla/5.0";
           py "Accept" := py "application/json" ]}.
Proof.
  intros w a h. split; [by_compute|].
  etrans;
    [apply (main_default_headers Json.loads Literal.eval lower_ascii w a
              (HttpGet (py "http://x/v1/models") h) h);
     [by_compute | by_compute | by_compute
      | apply (list_elem_of_lookup_2 _ 3); by_compute | reflexivity]|].
  by_compute.
Defined.

(** ** The model on concrete inputs *)

Example strip_example : strip (py "  a b  ") = py "a b".
Proof. reflexivity. Qed.

Example split_char_example :
  split_char COMMA (py "a,b,,c,") = [py "a"; py "b"; []; py "c"; []].
Proof. reflexivity. Qed.

Example split1_example :
  split1 COLON (py "Host: a:1") = (py "Host", py " a:1").
Proof. reflexivity. Qed.

Example splitlines_example :
  splitlines (py "A=1" ++ [13; 10] ++ py "# note" ++ [10; 10] ++ py "B=2" ++ [10])
  = [py "A=1"; py "# note"; []; py "B=2"].
Proof. reflexivity. Qed.

Example slice_example :
  slice_1_m1 (py "{a:b}") = py "a:b" ∧ slice_1_m1 (py "{") = [].
Proof. split; reflexivity. Qed.

Example loads_example :
  Json.loads (py "{" ++ quoted "a" ++ py ": [1, 2.5, true, null], "
              ++ quoted "a" ++ py ": " ++ quoted "é\n" ++ py "}")
  = Json.Value (PyDict [(PyStr (py "a"), PyStr [233; 10])]).
Proof. by_compute. Qed.

Example loads_trailing_comma :
  Json.loads (py "{" ++ quoted "a" ++ py ":" ++ quoted "1" ++ py ",}")
  = Json.JSONDecodeError.
Proof. by_compute. Qed.

Example dumps_example :
  Json.dumps_raw {[ py "k" := DQUOTE :: py "v" ++ [LF] ]}
  = py "{" ++ quoted "k" ++ py ": "
    ++ [DQUOTE] ++ py "\" ++ [DQUOTE] ++ py "v\n" ++ [DQUOTE] ++ py "}".
Proof. by_compute. Qed.

Example dumps_default_example :
  Json.dumps {[ py "k" := py "é😀" ]}
  = py "{" ++ quoted "k" ++ py ": " ++ quoted "\u00e9\ud83d\ude00" ++ py "}".
Proof. by_compute. Qed.

(** The default writer escapes a high surrogate next to a low one like a
    character beyond the basic plane, and that is how it is read back; this
    is why the round trip of the default writer is stated for scalar
    values. *)
Example dumps_surrogates_example :
  Json.scalar_text [55357; 56832] = false
  ∧ Json.loads (Json.dumps {[ py "k" := [55357; 56832] ]})
    = Json.Value (PyDict [(PyStr (py "k"), PyStr [128512])])
  ∧ Json.loads (Json.dumps_raw {[ py "k" := [55357; 56832] ]})
    = Json.Value (PyDict [(PyStr (py "k"), PyStr [55357; 56832])]).
Proof. by_compute. Qed.

Example load_env_file_example :
  load_env_file
    (Some (py "# settings" ++ [LF] ++ py "API_KEY = " ++ quoted "secret" ++ [LF]
           ++ py "novalue" ++ [LF] ++ py "MODEL_NAME=qwen-max=x"))
    {[ py "API_KEY" := py "live" ]}
  = ({[ py "API_KEY" := py "live"; py "MODEL_NAME" := py "qwen-max=x" ]},
     None).
Proof. by_compute. Qed.

(** A line with nothing before its equals sign stops the loading: the line
    before it has been read, the line after it is not. *)
Example load_env_file_refused_example :
  load_env_file (Some (py "A=1" ++ [LF] ++ py "=x" ++ [LF] ++ py "B=2")) ∅
  = ({[ py "A" := py "1" ]}, Some (OSError 22 (py "Invalid argument")))
  ∧ load_env_file (Some (py "A=" ++ [NUL])) ∅
    = (∅, Some (ValueError (py "embedded null byte")))
  ∧ load_env_file (Some (py "A=" ++ [NUL])) {[ py "A" := py "1" ]}
    = ({[ py "A" := py "1" ]}, None).
Proof. by_compute. Qed.

(** The limits of the decoder: 4300 digits are read, 4301 raise; 993
    arrays one inside the other are read, a 994th raises, whatever
    follows. *)
Example loads_limits_example :
  Json.loads (replicate 4300 49)
  = Json.Value (PyInt (Json.digits_value (replicate 4300 49)))
  ∧ Json.loads (replicate 4301 49)
    = Json.Raises (ValueError (Json.int_limit_msg 4301))
  ∧ Json.loads (replicate 993 91 ++ replicate 993 93)
    = Json.Value (Nat.iter 992 (λ v, PyList [v]) (PyList []))
  ∧ Json.loads (replicate 994 91 ++ py "@")
    = Json.Raises (RecursionError Json.MSG_DEEP_ARRAY)
  ∧ Json.loads (replicate 993 91 ++ py "@") = Json.JSONDecodeError.
Proof. by_compute. Qed.

(** The specification's example of the literal form. *)
Example parse_headers_literal_example :
  parse_headers Json.loads Literal.eval (Some (py "{'X':'1'}"))
  = Ok {[ py "X" := py "1" ]}.
Proof. by_compute. Qed.

(** A whole run: the first request fails, the second is answered by a
    block page. *)
Example main_run_example :
  let w := {| read_env_file := λ _, Some (py "API_KEY=k");
              environ := {[ py "MODEL_BASE_URL" := py "http://h/v1/" ]};
              getpass_input := [];
              http_client := ascii_client;
              http_get := λ _ _, inr (py "ConnectTimeout('timed out')");
              http_post := λ _ _ _,
                inl (html_response (py "<h1>Request was blocked</h1>")) |} in
  let a := with_header_flags [py "X-Trace=1"]
             {| arg_env_file := py ".env"; arg_base_url := None;
                arg_model := Some (py "m"); arg_headers := None;
                arg_header := []; arg_prompt_key := false |} in
  let h := {[ py "X-Trace" := py "1"; py "Accept" := py "application/json";
              py "User-Agent" := py "Mozilla/5.0";
              py "Authorization" := py "Bearer k" ]} in
  main Json.loads Literal.eval lower_ascii w a
  = ([ Print (py "base_url: http://h/v1");
       Print (py "model: m");
       Print (py "extra_headers: on");
       HttpGet (py "http://h/v1/models") h;
       Print (py "/models error: ConnectTimeout('timed out')");
       HttpPost (py "http://h/v1/chat/completions") h (chat_payload (py "m"));
       Print (py "/chat/completions status: 403");
       Print (py "/chat/completions content-type: text/html");
       Print (py "/chat/completions body(head): <h1>Request was blocked</h1>");
       Print MSG_WAF ],
     Exit 0).
Proof. by_compute. Qed.

(** A header that is not ASCII: the configuration is printed, and the
    creation of the client ends the run. *)
Example main_client_error_example :
  let w := world_with {[ py "API_KEY" := py "k" ]} (json_response []) in
  let a := with_header_flags [py "X-Name: café"]
             (set_base_url (Some (py "http://h/v1")) no_flags) in
  main Json.loads Literal.eval lower_ascii w a
  = ([ Print (py "base_url: http://h/v1");
       Print (py "model: (未指定)");
       Print (py "extra_headers: on") ],
     Uncaught UnicodeEncodeError).
Proof. by_compute. Qed.
